(** * EDP 360 evidence playback: orientation, view modes and raw-lens extraction

    A shallow embedding of the behavioural core of [script.js]: the global
    [state] object, the view-mode switch, the pan/tilt/zoom mutators driven by
    mouse, touch, wheel, keyboard and numeric entry, the front-lens
    calibration, and the raw dual-lens render loop with its 2D draw calls.

    Numbers.  JavaScript numbers are modelled by [num]: a finite value is an
    exact rational (a canonical [Qc]), and [Infinity], [-Infinity] and [NaN]
    are explicit.  Rounding of binary64 arithmetic and the sign of zero are
    not modelled, except in the compass value, where the rounding of the
    sums is a parameter; comparison, [Math.max], [Math.min], negation,
    division by zero and [NaN] propagation follow ECMAScript. *)

From Stdlib Require Import ZArith QArith Qcanon List String Bool Lia Lqa.
Import ListNotations.

Local Open Scope Z_scope.

(* ================================================================= *)
(** ** JavaScript numbers *)

Module JS.

Inductive num : Type :=
| Fin (q : Qc)
| PInf
| NInf
| NaN.

Definition ofQ (q : Q) : num := Fin (Q2Qc q).
Definition ofZ (z : Z) : num := Fin (Q2Qc (inject_Z z)).

Definition isNaN (a : num) : bool :=
  match a with NaN => true | _ => false end.

Definition isFinite (a : num) : bool :=
  match a with Fin _ => true | _ => false end.

(** Sign of a finite value, as a [comparison] against zero. *)
Definition sgn (q : Qc) : comparison := (q ?= Q2Qc 0)%Qc.

(** Unary minus. *)
Definition neg (a : num) : num :=
  match a with
  | Fin q => Fin (- q)%Qc
  | PInf => NInf
  | NInf => PInf
  | NaN => NaN
  end.

(** [a + b]. *)
Definition add (a b : num) : num :=
  match a, b with
  | NaN, _ | _, NaN => NaN
  | Fin p, Fin q => Fin (p + q)%Qc
  | PInf, NInf | NInf, PInf => NaN
  | PInf, _ | _, PInf => PInf
  | NInf, _ | _, NInf => NInf
  end.

(** [a - b]. *)
Definition sub (a b : num) : num := add a (neg b).

(** [a * b]: zero times an infinity is [NaN]. *)
Definition mul (a b : num) : num :=
  match a, b with
  | NaN, _ | _, NaN => NaN
  | Fin p, Fin q => Fin (p * q)%Qc
  | Fin p, PInf | PInf, Fin p =>
      match sgn p with Eq => NaN | Gt => PInf | Lt => NInf end
  | Fin p, NInf | NInf, Fin p =>
      match sgn p with Eq => NaN | Gt => NInf | Lt => PInf end
  | PInf, PInf | NInf, NInf => PInf
  | PInf, NInf | NInf, PInf => NInf
  end.

(** [a / b]: a finite non-zero value over zero is an infinity, [0 / 0] and
    an infinity over an infinity are [NaN], a finite value over an infinity
    is zero. *)
Definition div (a b : num) : num :=
  match a, b with
  | NaN, _ | _, NaN => NaN
  | Fin p, Fin q =>
      match sgn q with
      | Eq => match sgn p with Eq => NaN | Gt => PInf | Lt => NInf end
      | _ => Fin (p / q)%Qc
      end
  | Fin _, PInf | Fin _, NInf => Fin (Q2Qc 0)
  | PInf, Fin q => match sgn q with Lt => NInf | _ => PInf end
  | NInf, Fin q => match sgn q with Lt => PInf | _ => NInf end
  | _, _ => NaN
  end.

(** [a <= b] and [a < b]; every comparison with [NaN] is false. *)
Definition leb (a b : num) : bool :=
  match a, b with
  | NaN, _ | _, NaN => false
  | NInf, _ | _, PInf => true
  | Fin p, Fin q => match (p ?= q)%Qc with Gt => false | _ => true end
  | _, _ => false
  end.

Definition ltb (a b : num) : bool :=
  match a, b with
  | NaN, _ | _, NaN => false
  | PInf, _ | _, NInf => false
  | Fin p, Fin q => match (p ?= q)%Qc with Lt => true | _ => false end
  | _, _ => true
  end.

(** [a >= b]. *)
Definition geb (a b : num) : bool := leb b a.

(** [Math.max(a, b)] and [Math.min(a, b)]: [NaN] if either argument is. *)
Definition Math_max (a b : num) : num :=
  match a, b with
  | NaN, _ | _, NaN => NaN
  | _, _ => if leb a b then b else a
  end.

Definition Math_min (a b : num) : num :=
  match a, b with
  | NaN, _ | _, NaN => NaN
  | _, _ => if leb a b then a else b
  end.

(** Truncation toward zero of a rational. *)
Definition trunc (q : Qc) : Z := Z.quot (Qnum q) (Zpos (Qden q)).

(** [a % b]: the remainder has the sign of the dividend; it is [NaN] when the
    dividend is infinite or the divisor is zero, and the dividend itself when
    only the divisor is infinite. *)
Definition rem (a b : num) : num :=
  match a, b with
  | NaN, _ | _, NaN => NaN
  | PInf, _ | NInf, _ => NaN
  | Fin p, PInf | Fin p, NInf => Fin p
  | Fin p, Fin q =>
      match sgn q with
      | Eq => NaN
      | _ => Fin (p - q * Q2Qc (inject_Z (trunc (p / q))))%Qc
      end
  end.

(** [lo <= a <= hi] for a finite [a]; false for [NaN] and the infinities. *)
Definition within (lo hi : Z) (a : num) : Prop :=
  match a with
  | Fin q => (Q2Qc (inject_Z lo) <= q /\ q <= Q2Qc (inject_Z hi))%Qc
  | _ => False
  end.

(** The decidable form of [within]. *)
Definition withinb (lo hi : Z) (a : num) : bool :=
  leb (ofZ lo) a && leb a (ofZ hi) && isFinite a.

(** Structural equality of numbers ([NaN] is equal to itself here, unlike
    under [===]). *)
Definition eqb (a b : num) : bool :=
  match a, b with
  | Fin p, Fin q => Qc_eq_bool p q
  | PInf, PInf | NInf, NInf | NaN, NaN => true
  | _, _ => false
  end.

End JS.

Import JS.

Local Open Scope string_scope.

(* ================================================================= *)
(** ** Data model: the global [state] object and the page around it *)

(** The values of the view selector. *)
Inductive View : Type := stitched | front | back | rawview | flatview.

Definition View_eqb (a b : View) : bool :=
  match a, b with
  | stitched, stitched | front, front | back, back
  | rawview, rawview | flatview, flatview => true
  | _, _ => false
  end.

Record point : Type := mkPoint { x : num; y : num }.

Record orientation : Type :=
  mkOrientation { o_pan : num; o_tilt : num; o_zoom : num }.

(** What the core reads of the [<video>] element. *)
Record videoEl : Type := mkVideo {
  src : string;
  readyState : Z;
  videoWidth : num;
  videoHeight : num
}.

Definition HAVE_CURRENT_DATA : Z := 2.

(** The fields of [state] that the orientation core reads or writes, and the
    module-level [touchStartDistance]. *)
Record state : Type := mkState {
  video : option videoEl;
  isDragging : bool;
  previousMousePosition : point;
  currentView : View;
  pan : num;
  tilt : num;
  zoom : num;
  viewLocked : bool;
  rawViewInitialized : bool;
  frontLensOffset : num;
  initialOrientation : orientation;
  touchStartDistance : num
}.

Definition state0 : state := {|
  video := Some (mkVideo "" 0 (ofZ 0) (ofZ 0));
  isDragging := false;
  previousMousePosition := mkPoint (ofZ 0) (ofZ 0);
  currentView := stitched;
  pan := ofZ 0;
  tilt := ofZ 0;
  zoom := ofZ 75;
  viewLocked := false;
  rawViewInitialized := false;
  frontLensOffset := ofZ 91;
  initialOrientation := mkOrientation (ofZ 0) (ofZ 0) (ofZ 75);
  touchStartDistance := ofZ 0
|}.

Definition set_video v (s : state) : state :=
  mkState v (isDragging s) (previousMousePosition s) (currentView s) (pan s)
    (tilt s) (zoom s) (viewLocked s) (rawViewInitialized s)
    (frontLensOffset s) (initialOrientation s) (touchStartDistance s).
Definition set_isDragging v (s : state) : state :=
  mkState (video s) v (previousMousePosition s) (currentView s) (pan s)
    (tilt s) (zoom s) (viewLocked s) (rawViewInitialized s)
    (frontLensOffset s) (initialOrientation s) (touchStartDistance s).
Definition set_previousMousePosition v (s : state) : state :=
  mkState (video s) (isDragging s) v (currentView s) (pan s)
    (tilt s) (zoom s) (viewLocked s) (rawViewInitialized s)
    (frontLensOffset s) (initialOrientation s) (touchStartDistance s).
Definition set_currentView v (s : state) : state :=
  mkState (video s) (isDragging s) (previousMousePosition s) v (pan s)
    (tilt s) (zoom s) (viewLocked s) (rawViewInitialized s)
    (frontLensOffset s) (initialOrientation s) (touchStartDistance s).
Definition set_pan v (s : state) : state :=
  mkState (video s) (isDragging s) (previousMousePosition s) (currentView s) v
    (tilt s) (zoom s) (viewLocked s) (rawViewInitialized s)
    (frontLensOffset s) (initialOrientation s) (touchStartDistance s).
Definition set_tilt v (s : state) : state :=
  mkState (video s) (isDragging s) (previousMousePosition s) (currentView s)
    (pan s) v (zoom s) (viewLocked s) (rawViewInitialized s)
    (frontLensOffset s) (initialOrientation s) (touchStartDistance s).
Definition set_zoom v (s : state) : state :=
  mkState (video s) (isDragging s) (previousMousePosition s) (currentView s)
    (pan s) (tilt s) v (viewLocked s) (rawViewInitialized s)
    (frontLensOffset s) (initialOrientation s) (touchStartDistance s).
Definition set_viewLocked v (s : state) : state :=
  mkState (video s) (isDragging s) (previousMousePosition s) (currentView s)
    (pan s) (tilt s) (zoom s) v (rawViewInitialized s)
    (frontLensOffset s) (initialOrientation s) (touchStartDistance s).
Definition set_rawViewInitialized v (s : state) : state :=
  mkState (video s) (isDragging s) (previousMousePosition s) (currentView s)
    (pan s) (tilt s) (zoom s) (viewLocked s) v
    (frontLensOffset s) (initialOrientation s) (touchStartDistance s).
Definition set_frontLensOffset v (s : state) : state :=
  mkState (video s) (isDragging s) (previousMousePosition s) (currentView s)
    (pan s) (tilt s) (zoom s) (viewLocked s) (rawViewInitialized s)
    v (initialOrientation s) (touchStartDistance s).
Definition set_initialOrientation v (s : state) : state :=
  mkState (video s) (isDragging s) (previousMousePosition s) (currentView s)
    (pan s) (tilt s) (zoom s) (viewLocked s) (rawViewInitialized s)
    (frontLensOffset s) v (touchStartDistance s).
Definition set_touchStartDistance v (s : state) : state :=
  mkState (video s) (isDragging s) (previousMousePosition s) (currentView s)
    (pan s) (tilt s) (zoom s) (viewLocked s) (rawViewInitialized s)
    (frontLensOffset s) (initialOrientation s) v.

(** A raw-view canvas with the client size of its parent element. *)
Record canvas : Type := mkCanvas {
  parentClientWidth : num;
  parentClientHeight : num;
  width : num;
  height : num
}.

Inductive canvasId : Type := FrontCanvas | BackCanvas.

(** The calls made on a canvas's 2D context, in the order they are made. *)
Inductive call : Type :=
| fillRect (c : canvasId) (rx ry rw rh : num)
| drawImage (c : canvasId) (sx sy sw sh dx dy dw dh : num)
| fillText (c : canvasId) (text : string) (tx ty : num).

(** The page: the session state, the two raw canvases as
    [document.getElementById] finds them, the number of [renderRawView]
    callbacks waiting for the next animation frame, and every canvas call
    made so far. *)
Record page : Type := mkPage {
  st : state;
  rawFrontCanvas : option canvas;
  rawBackCanvas : option canvas;
  pendingRaw : nat;
  calls : list call
}.

Definition set_st v (w : page) : page :=
  mkPage v (rawFrontCanvas w) (rawBackCanvas w) (pendingRaw w) (calls w).
Definition on_st (f : state -> state) (w : page) : page := set_st (f (st w)) w.
Definition emit (cs : list call) (w : page) : page :=
  mkPage (st w) (rawFrontCanvas w) (rawBackCanvas w) (pendingRaw w)
    (calls w ++ cs).
Definition requestAnimationFrame_renderRawView (w : page) : page :=
  mkPage (st w) (rawFrontCanvas w) (rawBackCanvas w) (S (pendingRaw w))
    (calls w).

(* ================================================================= *)
(** ** View mode switching *)

Definition setFrontView (s : state) : state :=
  set_zoom (ofZ 100) (set_tilt (ofZ 0) (set_pan (ofZ 0) s)).

Definition setBackView (s : state) : state :=
  set_zoom (ofZ 100) (set_tilt (ofZ 0) (set_pan (ofZ 180) s)).

Definition drawPlaceholder (c : canvasId) (cv : canvas)
    (title subtitle : string) : list call :=
  [ fillText c title (div (width cv) (ofZ 2))
      (sub (div (height cv) (ofZ 2)) (ofZ 10));
    fillText c subtitle (div (width cv) (ofZ 2))
      (add (div (height cv) (ofZ 2)) (ofZ 15)) ].

(** The condition of the [if] in [renderRawView]:
    [state.video && state.video.src && readyState >= HAVE_CURRENT_DATA]. *)
Definition videoReady (s : state) : option videoEl :=
  match video s with
  | Some v =>
      if negb (String.eqb (src v) "") && (HAVE_CURRENT_DATA <=? readyState v)%Z
      then Some v else None
  | None => None
  end.

(** [state.video && state.video.src ? 'Video loading...' : ...]. *)
Definition placeholderSubtitle (s : state) : string :=
  match video s with
  | Some v => if String.eqb (src v) "" then "Load a 360° video"
              else "Video loading..."
  | None => "Load a 360° video"
  end.

(** One run of [renderRawView]. *)
Definition renderRawView (w : page) : page :=
  if negb (View_eqb (currentView (st w)) rawview) then w
  else
    match rawFrontCanvas w, rawBackCanvas w with
    | Some frontCanvas, Some backCanvas =>
        let w := emit
          [ fillRect FrontCanvas (ofZ 0) (ofZ 0) (width frontCanvas)
              (height frontCanvas);
            fillRect BackCanvas (ofZ 0) (ofZ 0) (width backCanvas)
              (height backCanvas) ] w in
        let w :=
          match videoReady (st w) with
          | Some v =>
              let videoWidth := videoWidth v in
              let videoHeight := videoHeight v in
              let w := on_st (set_rawViewInitialized true) w in
              let halfWidth := div videoWidth (ofZ 2) in
              let frontScale :=
                Math_min (div (width frontCanvas) halfWidth)
                         (div (height frontCanvas) videoHeight) in
              let backScale :=
                Math_min (div (width backCanvas) halfWidth)
                         (div (height backCanvas) videoHeight) in
              let frontDrawWidth := mul halfWidth frontScale in
              let frontDrawHeight := mul videoHeight frontScale in
              let frontX := div (sub (width frontCanvas) frontDrawWidth) (ofZ 2) in
              let frontY := div (sub (height frontCanvas) frontDrawHeight) (ofZ 2) in
              let backDrawWidth := mul halfWidth backScale in
              let backDrawHeight := mul videoHeight backScale in
              let backX := div (sub (width backCanvas) backDrawWidth) (ofZ 2) in
              let backY := div (sub (height backCanvas) backDrawHeight) (ofZ 2) in
              emit
                [ drawImage FrontCanvas (ofZ 0) (ofZ 0) halfWidth videoHeight
                    frontX frontY frontDrawWidth frontDrawHeight;
                  drawImage BackCanvas halfWidth (ofZ 0) halfWidth videoHeight
                    backX backY backDrawWidth backDrawHeight ] w
          | None =>
              emit
                (drawPlaceholder FrontCanvas frontCanvas "Front Lens"
                   (placeholderSubtitle (st w)) ++
                 drawPlaceholder BackCanvas backCanvas "Back Lens"
                   (placeholderSubtitle (st w))) w
          end in
        requestAnimationFrame_renderRawView w
    | _, _ => w
    end.

(** An assignment to [canvas.width] or [canvas.height]: the value is
    converted to an unsigned 32-bit integer ([NaN] and the infinities to 0, a
    finite value truncated and taken modulo 2^32), and a result above
    2^31 - 1, as a negative value gives, stores the default size instead
    (300 for the width, 150 for the height). *)
Definition canvasSize (default : Z) (v : num) : num :=
  match v with
  | Fin q =>
      let n := ((trunc q) mod 2 ^ 32)%Z in
      if (n <=? 2147483647)%Z then ofZ n else ofZ default
  | _ => ofZ 0
  end.

Definition resizeCanvas (cv : canvas) : canvas :=
  let width := sub (parentClientWidth cv) (ofZ 32) in
  let height := sub (parentClientHeight cv) (ofZ 50) in
  mkCanvas (parentClientWidth cv) (parentClientHeight cv)
    (canvasSize 300 width) (canvasSize 150 height).

(** [updateRawView].  After the canvases are found the function logs
    [state.video.src], [readyState], [videoWidth] and [videoHeight] without a
    test of [state.video]: when the video element is missing this read throws
    and the call ends there, before any resize, draw or request for an
    animation frame. *)
Definition updateRawView (w : page) : page :=
  match rawFrontCanvas w, rawBackCanvas w with
  | Some frontCanvas, Some backCanvas =>
      match video (st w) with
      | None => w
      | Some _ =>
          renderRawView
            (mkPage (st w) (Some (resizeCanvas frontCanvas))
               (Some (resizeCanvas backCanvas)) (pendingRaw w) (calls w))
      end
  | _, _ => w
  end.

Definition handleViewChange (newView : View) (w : page) : page :=
  let w := on_st (set_currentView newView) w in
  match newView with
  | stitched => on_st (set_viewLocked false) w
  | front => on_st (fun s => setFrontView (set_viewLocked true s)) w
  | back => on_st (fun s => setBackView (set_viewLocked true s)) w
  | rawview => updateRawView (on_st (set_rawViewInitialized false) w)
  | flatview => on_st (fun s => setFrontView (set_viewLocked true s)) w
  end.

(* ================================================================= *)
(** ** Pan / tilt / zoom controls *)

Definition resetView (s : state) : state :=
  match currentView s with
  | front | flatview => setFrontView s
  | back => setBackView s
  | _ =>
      set_zoom (o_zoom (initialOrientation s))
        (set_tilt (o_tilt (initialOrientation s))
           (set_pan (o_pan (initialOrientation s)) s))
  end.

Definition calibrateFrontLens (s : state) : state :=
  let s := set_frontLensOffset (neg (pan s)) s in
  let s := set_initialOrientation
             (mkOrientation (ofZ 0) (o_tilt (initialOrientation s))
                (o_zoom (initialOrientation s))) s in
  set_pan (ofZ 0) s.

(** The [change] handler of a numeric PTZ field: [type] is the field's
    [data-ptz] attribute and [value] what [parseFloat(input.value)] returned
    ([NaN] when the text is not a number). *)
Definition onPTZInputChange (type : string) (value : num) (s : state) : state :=
  if String.eqb type "pan" then
    set_pan (Math_max (ofZ (-180)) (Math_min (ofZ 180) value)) s
  else if String.eqb type "tilt" then
    set_tilt (Math_max (ofZ (-90)) (Math_min (ofZ 90) value)) s
  else if String.eqb type "zoom" then
    set_zoom (Math_max (ofZ 20) (Math_min (ofZ 120) value)) s
  else s.

(** What [updateOrientationWidget] writes to the compass: the value shown
    (before [Math.round]) and the rotation of the direction arrow. *)
Record widget : Type := mkWidget { compassDegrees : num; rotation : num }.

Section Compass.

(** The rounding of a binary64 sum to the nearest representable value.  In
    the compass computation the two [%] are exact (the remainder of two
    binary64 values is one) and the two additions round; their rounding is
    this parameter. *)
Variable fl : Qc -> Qc.

Definition rounded (a : num) : num :=
  match a with Fin q => Fin (fl q) | _ => a end.

(** The local [normalizedPan] of [updateOrientationWidget]. *)
Definition normalizedPan (s : state) : num :=
  rem (rounded (add (rem (pan s) (ofZ 360)) (ofZ 360))) (ofZ 360).

Definition updateOrientationWidget (s : state) : widget * state :=
  let normalizedPan := normalizedPan s in
  (mkWidget normalizedPan (rounded (add (neg normalizedPan) (ofZ 180))), s).

End Compass.

(* ================================================================= *)
(** ** Mouse, wheel and touch interaction *)

Definition sensitivity : num := ofQ (3 # 10).

Definition onMouseDown (clientX clientY : num) (s : state) : state :=
  if viewLocked s then s
  else set_previousMousePosition (mkPoint clientX clientY)
         (set_isDragging true s).

(** The body shared, line for line, by [onMouseMove] and the single-touch
    branch of [onTouchMove]. *)
Definition dragTo (clientX clientY : num) (s : state) : state :=
  let deltaX := sub clientX (x (previousMousePosition s)) in
  let deltaY := sub clientY (y (previousMousePosition s)) in
  let s := set_pan (sub (pan s) (mul deltaX sensitivity)) s in
  let s := set_tilt (add (tilt s) (mul deltaY sensitivity)) s in
  let s := set_tilt (Math_max (ofZ (-90)) (Math_min (ofZ 90) (tilt s))) s in
  set_previousMousePosition (mkPoint clientX clientY) s.

Definition onMouseMove (clientX clientY : num) (s : state) : state :=
  if negb (isDragging s) then s else dragTo clientX clientY s.

Definition onMouseUp (s : state) : state := set_isDragging false s.

Definition onMouseWheel (deltaY : num) (s : state) : state :=
  let delta := mul deltaY (ofQ (- (5 # 100))) in
  set_zoom (Math_max (ofZ 20) (Math_min (ofZ 120) (sub (zoom s) delta))) s.

Section Touch.

(** [Math.sqrt], which has no exact rational model, is a parameter. *)
Variable Math_sqrt : num -> num.

Definition touchDistance (t0 t1 : point) : num :=
  let dx := sub (x t0) (x t1) in
  let dy := sub (y t0) (y t1) in
  Math_sqrt (add (mul dx dx) (mul dy dy)).

Definition onTouchStart (touches : list point) (s : state) : state :=
  match touches with
  | [t0] =>
      set_previousMousePosition (mkPoint (x t0) (y t0)) (set_isDragging true s)
  | [t0; t1] => set_touchStartDistance (touchDistance t0 t1) s
  | _ => s
  end.

Definition onTouchMove (touches : list point) (s : state) : state :=
  match touches with
  | [t0] => if isDragging s then dragTo (x t0) (y t0) s else s
  | [t0; t1] =>
      let distance := touchDistance t0 t1 in
      let delta := mul (sub (touchStartDistance s) distance) (ofQ (1 # 10)) in
      let s := set_zoom
                 (Math_max (ofZ 20) (Math_min (ofZ 120) (add (zoom s) delta)))
                 s in
      set_touchStartDistance distance s
  | _ => s
  end.

Definition onTouchEnd (s : state) : state := set_isDragging false s.

End Touch.

(* ================================================================= *)
(** ** Keyboard shortcuts *)

(** The [keydown] listener.  [inField] is the test on [event.target.tagName];
    the playback keys (space, left/right arrows, [f], [m]) touch nothing that
    is modelled here. *)
Definition onKeyDown (inField : bool) (key : string) (s : state) : state :=
  if inField then s
  else if String.eqb key "ArrowUp" then
    set_tilt (Math_max (ofZ (-90)) (add (tilt s) (ofZ 5))) s
  else if String.eqb key "ArrowDown" then
    set_tilt (Math_min (ofZ 90) (sub (tilt s) (ofZ 5))) s
  else if String.eqb key "r" then resetView s
  else if String.eqb key "c" then calibrateFrontLens s
  else if String.eqb key "a" then set_pan (sub (pan s) (ofZ 5)) s
  else if String.eqb key "d" then set_pan (add (pan s) (ofZ 5)) s
  else if String.eqb key "w" then
    set_tilt (Math_max (ofZ (-90)) (add (tilt s) (ofZ 5))) s
  else if String.eqb key "s" then
    set_tilt (Math_min (ofZ 90) (sub (tilt s) (ofZ 5))) s
  else if String.eqb key "+" || String.eqb key "=" then
    set_zoom (Math_max (ofZ 20) (sub (zoom s) (ofZ 5))) s
  else if String.eqb key "-" || String.eqb key "_" then
    set_zoom (Math_min (ofZ 120) (add (zoom s) (ofZ 5))) s
  else s.

(* ================================================================= *)
(** ** The event loop *)

Inductive event : Type :=
| ViewChange (newView : View)
| MouseDown (clientX clientY : num)
| MouseMove (clientX clientY : num)
| MouseUp
| Wheel (deltaY : num)
| TouchStart (touches : list point)
| TouchMove (touches : list point)
| TouchEnd
| KeyDown (inField : bool) (key : string)
| PTZChange (type : string) (value : num)
| ResetClick
| CalibrateClick
| VideoUpdate (v : option videoEl)
| AnimationFrame.

(** An animation frame runs the [renderRawView] callbacks that were waiting;
    those they request wait for the next frame. *)
Definition animationFrame (w : page) : page :=
  Nat.iter (pendingRaw w) renderRawView
    (mkPage (st w) (rawFrontCanvas w) (rawBackCanvas w) 0 (calls w)).

Section Loop.

Variable Math_sqrt : num -> num.

Definition dispatch (e : event) (w : page) : page :=
  match e with
  | ViewChange newView => handleViewChange newView w
  | MouseDown cx cy => on_st (onMouseDown cx cy) w
  | MouseMove cx cy => on_st (onMouseMove cx cy) w
  | MouseUp => on_st onMouseUp w
  | Wheel deltaY => on_st (onMouseWheel deltaY) w
  | TouchStart touches => on_st (onTouchStart Math_sqrt touches) w
  | TouchMove touches => on_st (onTouchMove Math_sqrt touches) w
  | TouchEnd => on_st onTouchEnd w
  | KeyDown inField key => on_st (onKeyDown inField key) w
  | PTZChange type value => on_st (onPTZInputChange type value) w
  | ResetClick => on_st resetView w
  | CalibrateClick => on_st calibrateFrontLens w
  | VideoUpdate v => on_st (set_video v) w
  | AnimationFrame => animationFrame w
  end.

Fixpoint run (es : list event) (w : page) : page :=
  match es with
  | [] => w
  | e :: es => run es (dispatch e w)
  end.

End Loop.

Definition page0 : page :=
  mkPage state0
    (Some (mkCanvas (ofZ 832) (ofZ 650) (ofZ 300) (ofZ 150)))
    (Some (mkCanvas (ofZ 832) (ofZ 650) (ofZ 300) (ofZ 150)))
    0 [].

(* ================================================================= *)
(** ** Observations on the canvas calls, the range invariant, sample inputs *)

(** The destination rectangle [(dx, dy, dw, dh)] of every [drawImage] call. *)
Fixpoint drawnRects (cs : list call) : list (canvasId * (num * num * num * num)) :=
  match cs with
  | [] => []
  | drawImage c _ _ _ _ dx dy dw dh :: cs => (c, (dx, dy, dw, dh)) :: drawnRects cs
  | _ :: cs => drawnRects cs
  end.

Definition isDrawImage (c : call) : bool :=
  match c with drawImage _ _ _ _ _ _ _ _ _ => true | _ => false end.

Definition isFillText (c : call) : bool :=
  match c with fillText _ _ _ _ => true | _ => false end.

Definition countDrawImage (cs : list call) : nat := List.length (filter isDrawImage cs).
Definition countFillText (cs : list call) : nat := List.length (filter isFillText cs).

(** The range invariant of the data model: tilt in [[-90, 90]] and zoom in
    [[20, 120]]. *)
Definition inRange (s : state) : Prop :=
  within (-90) 90 (tilt s) /\ within 20 120 (zoom s).

Definition inRangeb (s : state) : bool :=
  withinb (-90) 90 (tilt s) && withinb 20 120 (zoom s).

(** The initial state panned to 30 degrees. *)
Definition statePan30 : state := set_pan (ofZ 30) state0.

(** A decoded 3840 x 1920 equirectangular recording, and an audio-only file,
    which a [<video>] element plays with [videoWidth = videoHeight = 0]. *)
Definition video3840x1920 : videoEl :=
  mkVideo "blob:recording" 4 (ofZ 3840) (ofZ 1920).
Definition audioOnly : videoEl := mkVideo "blob:audio" 4 (ofZ 0) (ofZ 0).

(** The initial page in raw view, with video [v] and both raw canvases of
    size [cw] x [ch]. *)
Definition rawPage (v : option videoEl) (cw ch : Z) : page :=
  mkPage (set_currentView rawview (set_video v state0))
    (Some (mkCanvas (ofZ (cw + 32)) (ofZ (ch + 50)) (ofZ cw) (ofZ ch)))
    (Some (mkCanvas (ofZ (cw + 32)) (ofZ (ch + 50)) (ofZ cw) (ofZ ch)))
    1 [].

(** The initial page after the front view was selected. *)
Definition lockedPage : page := handleViewChange front page0.

(** The divisor of [normalizedPan] and the finite case of [p % 360]. *)
Definition c360 : Qc := Q2Qc (inject_Z 360).

Definition rem360 (p : Qc) : Qc :=
  (p - c360 * Q2Qc (inject_Z (trunc (p / c360))))%Qc.

(** The one event that enters the raw view. *)
Definition isRawChange (e : event) : bool :=
  match e with ViewChange rawview => true | _ => false end.

(* ================================================================= *)
(** ** The camera pose computed by [animate] *)

(** The yaw in degrees that [animate] hands to [degToRad]. *)
Definition yawDegrees (s : state) : num := add (pan s) (frontLensOffset s).

Record camera : Type := mkCamera {
  rotation_y : num;
  rotation_x : num;
  fov : num
}.

Section Projection.

(** [THREE.MathUtils.degToRad], a multiplication by an irrational, is a
    parameter. *)
Variable degToRad : num -> num.

(** The part of [animate] that sets the camera from the orientation. *)
Definition animate (s : state) : camera :=
  let radPan := degToRad (yawDegrees s) in
  let radTilt := degToRad (tilt s) in
  mkCamera radPan radTilt (zoom s).

End Projection.

(* ================================================================= *)
(** ** Playback position and timeline *)

(** What the playback controls read and write of the [<video>] element. *)
Record media : Type := mkMedia {
  m_src : string;
  currentTime : num;
  duration : num
}.

Definition set_currentTime (t : num) (m : media) : media :=
  mkMedia (m_src m) t (duration m).

(** [!a] is false for a number that is neither zero nor [NaN]. *)
Definition truthy (a : num) : bool :=
  match a with
  | NaN => false
  | Fin q => match sgn q with Eq => false | _ => true end
  | _ => true
  end.

Definition skipTime (seconds : num) (m : media) : media :=
  if String.eqb (m_src m) "" then m
  else set_currentTime
         (Math_max (ofZ 0)
            (Math_min (duration m) (add (currentTime m) seconds))) m.

(** The bounding rectangle of the timeline, as far as it is used. *)
Record rect : Type := mkRect { left : num; rect_width : num }.

(** [updateTimelineProgress]: the percentage written to the progress bar
    and the scrubber, or [None] when the function returns before writing. *)
Definition updateTimelineProgress (m : media) : option num :=
  if String.eqb (m_src m) "" || negb (truthy (duration m)) then None
  else Some (mul (div (currentTime m) (duration m)) (ofZ 100)).

(** [handleTimelineClick]: the element after the seek and what the call of
    [updateTimelineProgress] at its end writes. *)
Definition handleTimelineClick (clientX : num) (r : rect) (m : media)
  : media * option num :=
  if String.eqb (m_src m) "" then (m, None)
  else
    let x := sub clientX (left r) in
    let percentage := div x (rect_width r) in
    let m := set_currentTime (mul percentage (duration m)) m in
    (m, updateTimelineProgress m).

(** The [onDrag] listener that [startTimelineDrag] installs. *)
Definition onDrag (isDraggingTimeline : bool) (clientX : num) (r : rect)
    (m : media) : media :=
  if negb isDraggingTimeline then m
  else
    let x := Math_max (ofZ 0) (Math_min (rect_width r) (sub clientX (left r))) in
    let percentage := div x (rect_width r) in
    set_currentTime (mul percentage (duration m)) m.

(* ================================================================= *)
(** ** Well-formed events and the invariants they keep *)

Definition finitePoint (p : point) : bool := isFinite (x p) && isFinite (y p).

(** The numbers an event carries are finite, as the coordinates and wheel
    deltas of browser events are; a numeric entry may be any number, the
    infinities included, but not [NaN]. *)
Definition finiteEvent (e : event) : bool :=
  match e with
  | MouseDown cx cy | MouseMove cx cy => isFinite cx && isFinite cy
  | Wheel deltaY => isFinite deltaY
  | TouchStart touches | TouchMove touches => forallb finitePoint touches
  | PTZChange _ value => negb (isNaN value)
  | _ => true
  end.

(** The four keys that move tilt, pressed outside a text field. *)
Definition isTiltKey (e : event) : bool :=
  match e with
  | KeyDown false key =>
      String.eqb key "ArrowUp" || String.eqb key "ArrowDown"
      || String.eqb key "w" || String.eqb key "s"
  | _ => false
  end.

(** The two ways to calibrate: the button and the [c] key. *)
Definition isCalibrate (e : event) : bool :=
  match e with
  | CalibrateClick => true
  | KeyDown false key => String.eqb key "c"
  | _ => false
  end.

(** A pointer move that can only continue a drag: a mouse move or a move of
    a single touch. *)
Definition isDragMove (e : event) : bool :=
  match e with
  | MouseMove _ _ => true
  | TouchMove [_] => true
  | _ => false
  end.

(** What every well-formed event keeps: zoom and the stored initial tilt and
    zoom in range, and tilt, the last pointer position and the last pinch
    distance finite. *)
Definition steady (s : state) : Prop :=
  isFinite (tilt s) = true /\
  within 20 120 (zoom s) /\
  within (-90) 90 (o_tilt (initialOrientation s)) /\
  within 20 120 (o_zoom (initialOrientation s)) /\
  isFinite (x (previousMousePosition s)) = true /\
  isFinite (y (previousMousePosition s)) = true /\
  isFinite (touchStartDistance s) = true.


(** Evaluation of closed terms: canonical rationals are compared by value. *)
Ltac js_eval :=
  vm_compute;
  repeat first [ reflexivity | apply Qc_is_canon; reflexivity | f_equal ].

(** Case analysis on every condition of a chain of [if]s. *)
Ltac split_ifs :=
  repeat match goal with
         | |- context [if ?b then _ else _] => destruct b
         end.

(** Reduction of the projections of an updated [state] or [page]. *)
Ltac simpl_state :=
  cbn [video isDragging previousMousePosition currentView pan tilt zoom
       viewLocked rawViewInitialized frontLensOffset initialOrientation
       touchStartDistance set_video set_isDragging set_previousMousePosition
       set_currentView set_pan set_tilt set_zoom set_viewLocked
       set_rawViewInitialized set_frontLensOffset set_initialOrientation
       set_touchStartDistance x y o_pan o_tilt o_zoom st set_st on_st
       rawFrontCanvas rawBackCanvas pendingRaw calls
       setFrontView setBackView] in *.

(** The seven parts of [steady], one goal each. *)
Ltac steady_split :=
  unfold steady; simpl_state;
  refine (conj _ (conj _ (conj _ (conj _ (conj _ (conj _ _)))))).

(* ================================================================= *)
(** ** Facts about numbers *)

Lemma eqb_eq (a b : num) : JS.eqb a b = true -> a = b.
Proof.
  destruct a, b; simpl; try discriminate; try reflexivity.
  intros H. f_equal. now apply Qc_eq_bool_correct.
Qed.

Lemma leb_Fin_true (p q : Qc) : leb (Fin p) (Fin q) = true -> (p <= q)%Qc.
Proof.
  unfold leb. intros H. apply Qcle_alt. intros E. rewrite E in H. discriminate.
Qed.

Lemma leb_Fin_false (p q : Qc) : leb (Fin p) (Fin q) = false -> (q < p)%Qc.
Proof.
  unfold leb. intros H. apply Qcnot_le_lt. intros L.
  pose proof (proj1 (Qcle_alt p q) L) as G.
  destruct (p ?= q)%Qc; congruence.
Qed.

Lemma withinb_spec (lo hi : Z) (a : num) :
  within lo hi a <-> withinb lo hi a = true.
Proof.
  unfold withinb, ofZ. destruct a as [q| | |]; simpl;
    try (split; [tauto | intros H; repeat rewrite ?andb_false_r in H; discriminate]).
  rewrite andb_true_r, andb_true_iff. split.
  - intros [H1 H2].
    pose proof (proj1 (Qcle_alt _ _) H1) as G1.
    pose proof (proj1 (Qcle_alt _ _) H2) as G2.
    split.
    + destruct (Q2Qc (inject_Z lo) ?= q)%Qc; congruence.
    + destruct (q ?= Q2Qc (inject_Z hi))%Qc; congruence.
  - intros [H1 H2]. split.
    + apply (leb_Fin_true _ _ H1).
    + apply (leb_Fin_true _ _ H2).
Qed.

Lemma ofZ_le (a b : Z) : (a <= b)%Z -> (Q2Qc (inject_Z a) <= Q2Qc (inject_Z b))%Qc.
Proof.
  intros H. unfold Qcle. cbn [this Q2Qc]. rewrite !Qred_correct.
  now rewrite <- Zle_Qle.
Qed.

(** [Math.max(lo, Math.min(hi, v))] lands in [[lo, hi]] for every [v] but
    [NaN], the infinities included. *)
Lemma clamp_within (lo hi : Z) (v : num) :
  (lo <= hi)%Z -> isNaN v = false ->
  within lo hi (Math_max (ofZ lo) (Math_min (ofZ hi) v)).
Proof.
  intros Hlh Hv. pose proof (ofZ_le _ _ Hlh) as Hq.
  unfold ofZ. set (l := Q2Qc (inject_Z lo)) in *.
  set (h := Q2Qc (inject_Z hi)) in *.
  assert (Hl : within lo hi (Fin l)) by (split; [apply Qcle_refl | exact Hq]).
  assert (Hh : within lo hi (Fin h)) by (split; [exact Hq | apply Qcle_refl]).
  assert (Elh : leb (Fin l) (Fin h) = true).
  { destruct (leb (Fin l) (Fin h)) eqn:E; [reflexivity|].
    apply leb_Fin_false in E. exfalso. exact (Qclt_not_le _ _ E Hq). }
  destruct v as [q| | |]; try discriminate.
  - cbv beta iota delta [Math_min].
    destruct (leb (Fin h) (Fin q)) eqn:E1; cbv beta iota delta [Math_max].
    + rewrite Elh. exact Hh.
    + apply leb_Fin_false in E1.
      destruct (leb (Fin l) (Fin q)) eqn:E2.
      * apply leb_Fin_true in E2. split; [exact E2 | now apply Qclt_le_weak].
      * exact Hl.
  - change (Math_min (Fin h) PInf) with (Fin h).
    cbv beta iota delta [Math_max]. rewrite Elh. exact Hh.
  - change (Math_min (Fin h) NInf) with NInf. exact Hl.
Qed.

Lemma leb_Fin_intro (p q : Qc) : (p <= q)%Qc -> leb (Fin p) (Fin q) = true.
Proof.
  intros H. destruct (leb (Fin p) (Fin q)) eqn:E; [reflexivity|].
  apply leb_Fin_false in E. exfalso. exact (Qclt_not_le _ _ E H).
Qed.

(** The two-sided clamp between finite bounds. *)
Lemma clamp_between (lo hi v : Qc) :
  (lo <= hi)%Qc ->
  exists r,
    Math_max (Fin lo) (Math_min (Fin hi) (Fin v)) = Fin r /\
    (lo <= r)%Qc /\ (r <= hi)%Qc /\
    ((hi <= v)%Qc -> r = hi) /\ ((v <= lo)%Qc -> r = lo) /\
    ((lo <= v)%Qc -> (v <= hi)%Qc -> r = v).
Proof.
  intros Hq. cbv beta iota delta [Math_min].
  destruct (leb (Fin hi) (Fin v)) eqn:E1; cbv beta iota delta [Math_max].
  - rewrite (leb_Fin_intro _ _ Hq). apply leb_Fin_true in E1.
    exists hi. split; [reflexivity|].
    split; [exact Hq | split; [apply Qcle_refl | split; [reflexivity | split]]].
    + intros H. apply Qcle_antisym; [|exact Hq].
      exact (Qcle_trans _ _ _ E1 H).
    + intros _ H. now apply Qcle_antisym.
  - apply leb_Fin_false in E1.
    destruct (leb (Fin lo) (Fin v)) eqn:E2.
    + apply leb_Fin_true in E2. exists v. split; [reflexivity|].
      split; [exact E2 | split; [now apply Qclt_le_weak | split; [| split]]].
      * intros H. exfalso. exact (Qclt_not_le _ _ E1 H).
      * intros H. now apply Qcle_antisym.
      * reflexivity.
    + apply leb_Fin_false in E2. exists lo. split; [reflexivity|].
      split; [apply Qcle_refl | split; [exact Hq | split; [| split]]].
      * intros H. exfalso. exact (Qclt_not_le _ _ E1 H).
      * reflexivity.
      * intros H. exfalso. exact (Qclt_not_le _ _ E2 H).
Qed.

(** With [NaN] the clamp stores [NaN]. *)
Lemma clamp_NaN (lo hi : num) : Math_max lo (Math_min hi NaN) = NaN.
Proof. destruct lo, hi; reflexivity. Qed.

(** The value of a canonical rational after each operation. *)
Lemma this_Q2Qc (q : Q) : (this (Q2Qc q) == q)%Q.
Proof. apply Qred_correct. Qed.

Lemma this_plus (a b : Qc) : (this (a + b)%Qc == this a + this b)%Q.
Proof. apply Qred_correct. Qed.

Lemma this_mult (a b : Qc) : (this (a * b)%Qc == this a * this b)%Q.
Proof. apply Qred_correct. Qed.

Lemma this_opp (a : Qc) : (this (- a)%Qc == - this a)%Q.
Proof. apply Qred_correct. Qed.

Lemma neg_zero : neg (ofZ 0) = ofZ 0.
Proof. apply eqb_eq. reflexivity. Qed.

Lemma neg_involutive (a : num) : neg (neg a) = a.
Proof. destruct a; simpl; try reflexivity. now rewrite Qcopp_involutive. Qed.

Lemma neg_eq_zero (a : num) : neg a = ofZ 0 <-> a = ofZ 0.
Proof.
  split; intros H.
  - rewrite <- (neg_involutive a), H. apply neg_zero.
  - rewrite H. apply neg_zero.
Qed.

(* ================================================================= *)
(** ** Numeric entry (C10) *)








(** A text that does not parse as a number reaches the clamp as [NaN] and is
    stored as [NaN]. *)
Lemma ptz_entry_NaN (s : state) :
  pan (onPTZInputChange "pan" NaN s) = NaN /\
  tilt (onPTZInputChange "tilt" NaN s) = NaN /\
  zoom (onPTZInputChange "zoom" NaN s) = NaN.
Proof. repeat split. Qed.




(* ================================================================= *)
(** ** Named views (C8) *)

(** C8: from every starting page, selecting the front view twice in a row
    leaves exactly the page that selecting it once leaves, and in it
    pan = 0, tilt = 0, zoom = 100 and the view is locked. *)
Theorem front_view_idempotent (w : page) :
  handleViewChange front (handleViewChange front w) = handleViewChange front w /\
  pan (st (handleViewChange front w)) = ofZ 0 /\
  tilt (st (handleViewChange front w)) = ofZ 0 /\
  zoom (st (handleViewChange front w)) = ofZ 100 /\
  viewLocked (st (handleViewChange front w)) = true /\
  currentView (st (handleViewChange front w)) = front.
Proof. repeat split. Qed.

(** Every mode but the raw one is re-entered without effect. *)
Lemma named_view_idempotent (v : View) (w : page) :
  v <> rawview ->
  handleViewChange v (handleViewChange v w) = handleViewChange v w.
Proof. destruct v; intros H; try reflexivity. now elim H. Qed.

(* ================================================================= *)
(** ** Calibration (C4, C5) *)

(** C5: whatever the pan [p] before it, [calibrateFrontLens] stores
    [frontLensOffset = -p] and [pan = 0]; selecting the stitched view and
    resetting afterwards then gives [pan = 0] again. *)
Theorem calibrate_round_trip (w : page) :
  let w1 := on_st calibrateFrontLens w in
  frontLensOffset (st w1) = neg (pan (st w)) /\
  pan (st w1) = ofZ 0 /\
  pan (st (on_st resetView (handleViewChange stitched w1))) = ofZ 0.
Proof. repeat split. Qed.

(** C4, as stated, fails: calibrating at pan = 30 stores the offset -30, and
    calibrating again stores the offset 0. *)
Lemma calibrate_twice_counterexample :
  frontLensOffset (calibrateFrontLens statePan30) = ofZ (-30) /\
  frontLensOffset (calibrateFrontLens (calibrateFrontLens statePan30)) = ofZ 0 /\
  calibrateFrontLens (calibrateFrontLens statePan30)
    <> calibrateFrontLens statePan30.
Proof.
  split; [js_eval | split; [js_eval |]].
  intros H. apply (f_equal frontLensOffset) in H.
  vm_compute in H. discriminate H.
Qed.

(** C4, amended: a second [calibrateFrontLens] changes one field only, the
    offset, which it overwrites with [-0 = 0]; pan, the initial orientation
    and every other field stay as the first call left them, and the whole
    state is unchanged exactly when the pan before the first call was 0. *)
Theorem calibrate_twice (s : state) :
  calibrateFrontLens (calibrateFrontLens s)
    = set_frontLensOffset (ofZ 0) (calibrateFrontLens s) /\
  pan (calibrateFrontLens (calibrateFrontLens s)) = ofZ 0 /\
  initialOrientation (calibrateFrontLens (calibrateFrontLens s))
    = initialOrientation (calibrateFrontLens s) /\
  (calibrateFrontLens (calibrateFrontLens s) = calibrateFrontLens s
   <-> pan s = ofZ 0).
Proof.
  assert (E : calibrateFrontLens (calibrateFrontLens s)
              = set_frontLensOffset (ofZ 0) (calibrateFrontLens s)).
  { unfold calibrateFrontLens, set_frontLensOffset, set_initialOrientation,
      set_pan. cbn -[neg ofZ]. now rewrite neg_zero. }
  split; [exact E | split; [reflexivity | split; [reflexivity |]]].
  rewrite E. split.
  - intros H. apply (f_equal frontLensOffset) in H. cbn -[neg ofZ] in H.
    symmetry in H. now apply neg_eq_zero.
  - intros H. clear E. destruct s; cbn -[neg ofZ] in H. subst.
    unfold calibrateFrontLens, set_frontLensOffset, set_initialOrientation,
      set_pan. cbn -[neg ofZ]. now rewrite neg_zero.
Qed.

(* ================================================================= *)
(** ** Raw dual-lens extraction (C3, C6) *)

(** C3, as stated, fails: for a 3840 x 1920 frame and 800 x 600 canvases the
    destination rectangles are not x = 0, y = 100, 800 x 400. *)
Lemma raw_split_counterexample :
  drawnRects (calls (renderRawView (rawPage (Some video3840x1920) 800 600)))
  <> [ (FrontCanvas, (ofZ 0, ofZ 100, ofZ 800, ofZ 400));
       (BackCanvas, (ofZ 0, ofZ 100, ofZ 800, ofZ 400)) ].
Proof. intros H. vm_compute in H. discriminate H. Qed.

(** C3, amended: with scale = min(dw / (W/2), dh / H) the 1920 x 1920 half
    frame is limited by the height of an 800 x 600 canvas: scale = 600/1920,
    drawWidth = drawHeight = 600, x = 100 and y = 0, for front and back. *)
Theorem raw_split_3840x1920_in_800x600 :
  calls (renderRawView (rawPage (Some video3840x1920) 800 600))
  = [ fillRect FrontCanvas (ofZ 0) (ofZ 0) (ofZ 800) (ofZ 600);
      fillRect BackCanvas (ofZ 0) (ofZ 0) (ofZ 800) (ofZ 600);
      drawImage FrontCanvas (ofZ 0) (ofZ 0) (ofZ 1920) (ofZ 1920)
        (ofZ 100) (ofZ 0) (ofZ 600) (ofZ 600);
      drawImage BackCanvas (ofZ 1920) (ofZ 0) (ofZ 1920) (ofZ 1920)
        (ofZ 100) (ofZ 0) (ofZ 600) (ofZ 600) ] /\
  Math_min (div (ofZ 800) (div (ofZ 3840) (ofZ 2))) (div (ofZ 600) (ofZ 1920))
  = ofQ (600 # 1920).
Proof. split; js_eval. Qed.

(** C6, as stated, fails: a ready source that reports width 0 (an audio-only
    file) gets two [drawImage] calls and no placeholder text, and [NaN]
    reaches the destination rectangle; so does a ready source drawn into
    0 x 0 canvases. *)
Lemma raw_zero_width_counterexample :
  let cs := calls (renderRawView (rawPage (Some audioOnly) 800 600)) in
  let cs0 := calls (renderRawView (rawPage (Some video3840x1920) 0 0)) in
  videoWidth audioOnly = ofZ 0 /\
  countDrawImage cs = 2%nat /\ countFillText cs = 0%nat /\
  drawnRects cs = [ (FrontCanvas, (NaN, NaN, NaN, NaN));
                    (BackCanvas, (NaN, NaN, NaN, NaN)) ] /\
  countDrawImage cs0 = 2%nat /\ countFillText cs0 = 0%nat.
Proof. repeat split. Qed.

Lemma renderRawView_state (w : page) :
  st (renderRawView w)
  = set_rawViewInitialized (rawViewInitialized (st (renderRawView w))) (st w).
Proof.
  unfold renderRawView.
  destruct (negb (View_eqb (currentView (st w)) rawview)).
  - now destruct w as [[] ? ? ? ?].
  - destruct (rawFrontCanvas w), (rawBackCanvas w);
      try now destruct w as [[] ? ? ? ?].
    cbn. destruct (videoReady (st w)); now destruct w as [[] ? ? ? ?].
Qed.

(** C6, amended: in raw view with both canvases present, [renderRawView]
    draws the placeholder texts, and no image, exactly when the source is not
    ready; when it is ready it makes its two [drawImage] calls whatever the
    frame width and the canvas sizes.  In every case the scale and the
    rectangles go to the draw calls only: the run changes no field of [state]
    other than [rawViewInitialized]. *)
Theorem raw_placeholder_iff_not_ready (w : page) (frontCanvas backCanvas : canvas) :
  currentView (st w) = rawview ->
  rawFrontCanvas w = Some frontCanvas ->
  rawBackCanvas w = Some backCanvas ->
  exists new,
    calls (renderRawView w) = (calls w ++ new)%list /\
    match videoReady (st w) with
    | None => countDrawImage new = 0%nat /\ countFillText new = 4%nat
    | Some _ => countDrawImage new = 2%nat /\ countFillText new = 0%nat
    end /\
    st (renderRawView w)
    = set_rawViewInitialized (rawViewInitialized (st (renderRawView w))) (st w).
Proof.
  intros Hv Hf Hb.
  assert (Hst := renderRawView_state w).
  unfold renderRawView in *. rewrite Hv, Hf, Hb in *.
  cbn [View_eqb negb] in *.
  change (st (emit _ w)) with (st w) in *.
  destruct (videoReady (st w)) as [v|] eqn:Ev.
  - eexists. split; [|split; [|exact Hst]].
    + cbn. rewrite <- app_assoc. reflexivity.
    + split; reflexivity.
  - eexists. split; [|split; [|exact Hst]].
    + cbn. rewrite <- app_assoc. reflexivity.
    + split; reflexivity.
Qed.

Lemma raw_placeholder_iff_not_ready_witness :
  currentView (st (rawPage None 800 600)) = rawview /\
  exists new,
    calls (renderRawView (rawPage None 800 600))
    = (calls (rawPage None 800 600) ++ new)%list /\
    countDrawImage new = 0%nat /\ countFillText new = 4%nat.
Proof.
  split; [reflexivity|].
  destruct (raw_placeholder_iff_not_ready (rawPage None 800 600) _ _
              eq_refl eq_refl eq_refl) as [new [H1 [H2 _]]].
  exists new. split; [exact H1 | exact H2].
Defined.

(* ================================================================= *)
(** ** The range invariant under the mutators (C1) *)

Lemma inRange_spec (s : state) : inRange s <-> inRangeb s = true.
Proof.
  unfold inRange, inRangeb. rewrite andb_true_iff, <- !withinb_spec. tauto.
Qed.

(** A drag step, a wheel step, a pinch step and a numeric entry end in the
    two-sided clamp, so the value they store is in range unless it is [NaN]. *)
Lemma drag_tilt_within (cx cy : num) (s : state) :
  isNaN (add (tilt s) (mul (sub cy (y (previousMousePosition s))) sensitivity))
    = false ->
  within (-90) 90 (tilt (dragTo cx cy s)).
Proof. intros H. now apply (clamp_within (-90) 90). Qed.

Lemma wheel_zoom_within (deltaY : num) (s : state) :
  isNaN (sub (zoom s) (mul deltaY (ofQ (- (5 # 100))))) = false ->
  within 20 120 (zoom (onMouseWheel deltaY s)).
Proof. intros H. now apply (clamp_within 20 120). Qed.

Lemma pinch_zoom_within (sqrt : num -> num) (t0 t1 : point) (s : state) :
  isNaN (add (zoom s)
           (mul (sub (touchStartDistance s) (touchDistance sqrt t0 t1))
              (ofQ (1 # 10)))) = false ->
  within 20 120 (zoom (onTouchMove sqrt [t0; t1] s)).
Proof. intros H. now apply (clamp_within 20 120). Qed.

(** The zoom keys clamp on one side only, the side they move towards, and
    so keep a zoom that was in range in range. *)
Lemma zoom_keys_keep_range (s : state) :
  within 20 120 (zoom s) ->
  within 20 120 (zoom (onKeyDown false "+" s)) /\
  within 20 120 (zoom (onKeyDown false "-" s)).
Proof.
  destruct (zoom s) as [z| | |] eqn:Ez; try contradiction.
  intros [Hlo Hhi].
  change (zoom (onKeyDown false "+" s))
    with (Math_max (ofZ 20) (sub (zoom s) (ofZ 5))).
  change (zoom (onKeyDown false "-" s))
    with (Math_min (ofZ 120) (add (zoom s) (ofZ 5))).
  rewrite Ez. unfold sub, add, neg, ofZ.
  cbv beta iota delta [Math_max Math_min].
  split.
  - destruct (leb _ _) eqn:E.
    + apply leb_Fin_true in E. split; [exact E|].
      unfold Qcle in *. rewrite ?this_plus, ?this_opp, ?this_Q2Qc in *.
      unfold inject_Z in *. lra.
    + split; [apply Qcle_refl | now apply ofZ_le].
  - destruct (leb _ _) eqn:E.
    + split; [now apply ofZ_le | apply Qcle_refl].
    + apply leb_Fin_false in E. split; [| now apply Qclt_le_weak].
      unfold Qcle, Qclt in *. rewrite ?this_plus, ?this_opp, ?this_Q2Qc in *.
      unfold inject_Z in *. lra.
Qed.

(** C1 fails on the tilt keys: [ArrowUp] and [w] add 5 and clamp from below
    only, [ArrowDown] and [s] subtract 5 and clamp from above only.  From
    tilt = 90, which is in range, one [ArrowUp] stores 95; from -90 one
    [ArrowDown] stores -95; and nineteen [ArrowUp] presses take the initial
    state out of range. *)
Theorem keyboard_tilt_leaves_range (sqrt : num -> num) :
  inRange (set_tilt (ofZ 90) state0) /\
  tilt (onKeyDown false "ArrowUp" (set_tilt (ofZ 90) state0)) = ofZ 95 /\
  tilt (onKeyDown false "w" (set_tilt (ofZ 90) state0)) = ofZ 95 /\
  tilt (onKeyDown false "ArrowDown" (set_tilt (ofZ (-90)) state0)) = ofZ (-95) /\
  tilt (onKeyDown false "s" (set_tilt (ofZ (-90)) state0)) = ofZ (-95) /\
  ~ inRange (onKeyDown false "ArrowUp" (set_tilt (ofZ 90) state0)) /\
  inRange (st page0) /\
  tilt (st (run sqrt (repeat (KeyDown false "ArrowUp") 19) page0)) = ofZ 95 /\
  ~ inRange (st (run sqrt (repeat (KeyDown false "ArrowUp") 19) page0)).
Proof.
  repeat match goal with |- _ /\ _ => split end;
    try (apply inRange_spec; reflexivity);
    try (rewrite inRange_spec; vm_compute; discriminate);
    js_eval.
Qed.

(* ================================================================= *)
(** ** The view lock (C2) *)

(** The mouse path honours the lock: [onMouseDown] refuses to start a drag. *)
Lemma mouse_drag_locked (cx cy cx' cy' : num) (s : state) :
  viewLocked s = true -> isDragging s = false ->
  onMouseMove cx' cy' (onMouseDown cx cy s) = s.
Proof.
  intros HL HD. unfold onMouseDown. rewrite HL.
  unfold onMouseMove. now rewrite HD.
Qed.

(** The wheel does not read the lock. *)
Lemma wheel_ignores_lock (deltaY : num) (b : bool) (s : state) :
  zoom (onMouseWheel deltaY (set_viewLocked b s)) = zoom (onMouseWheel deltaY s).
Proof. reflexivity. Qed.

(** C2 fails on the touch path: [onTouchStart] has no test of [viewLocked],
    so in the locked front view a one-finger drag of deltaX = 100 moves pan
    from 0 to -30 (and a drag of deltaY = 100 moves tilt to 30), where the
    same gesture with the mouse changes nothing.  A wheel delta of -100
    changes the locked zoom from 100 to 95. *)
Theorem touch_drag_ignores_lock (sqrt : num -> num) :
  viewLocked (st lockedPage) = true /\
  pan (st lockedPage) = ofZ 0 /\
  pan (st (run sqrt [TouchStart [mkPoint (ofZ 0) (ofZ 0)];
                     TouchMove [mkPoint (ofZ 100) (ofZ 0)]] lockedPage))
    = ofZ (-30) /\
  tilt (st (run sqrt [TouchStart [mkPoint (ofZ 0) (ofZ 0)];
                      TouchMove [mkPoint (ofZ 0) (ofZ 100)]] lockedPage))
    = ofZ 30 /\
  viewLocked (st (run sqrt [TouchStart [mkPoint (ofZ 0) (ofZ 0)];
                            TouchMove [mkPoint (ofZ 100) (ofZ 0)]] lockedPage))
    = true /\
  run sqrt [MouseDown (ofZ 0) (ofZ 0); MouseMove (ofZ 100) (ofZ 0)] lockedPage
    = lockedPage /\
  zoom (st (run sqrt [Wheel (ofZ (-100))] lockedPage)) = ofZ 95.
Proof.
  repeat match goal with |- _ /\ _ => split end; js_eval.
Qed.

(* ================================================================= *)
(** ** The compass value (C7) *)

Lemma Qtrunc_bounds (q : Q) :
  let t := inject_Z (Z.quot (Qnum q) (Zpos (Qden q))) in
  ((0 <= q -> t <= q /\ q < t + 1) /\ (q <= 0 -> t - 1 < q /\ q <= t))%Q.
Proof.
  destruct q as [n d]. cbn [Qnum Qden].
  pose proof (Z.quot_rem' n (Zpos d)) as E.
  unfold Qle, Qlt, inject_Z, Qplus, Qminus, Qopp; cbn [Qnum Qden].
  set (t := Z.quot n (Z.pos d)) in *. set (r := Z.rem n (Z.pos d)) in *.
  split; intros H.
  - assert (0 <= n) by lia.
    pose proof (Z.rem_bound_pos n (Zpos d) ltac:(lia) ltac:(lia)).
    simpl. rewrite ?Z.mul_1_r. split; nia.
  - assert (Hn : n <= 0) by lia.
    pose proof (Z.rem_bound_pos_neg n (Zpos d) ltac:(lia) ltac:(lia)).
    simpl. rewrite ?Z.mul_1_r. split; nia.
Qed.

Lemma c360_neq0 : c360 <> Q2Qc 0.
Proof. intros H. apply (f_equal this) in H. vm_compute in H. discriminate H. Qed.

Lemma rem_360 (p : Qc) : rem (Fin p) (ofZ 360) = Fin (rem360 p).
Proof. reflexivity. Qed.

(** The remainder by 360 has the sign of the dividend and is smaller than
    360 in absolute value. *)
Lemma rem360_bounds (p : Qc) :
  ((Q2Qc 0 <= p -> Q2Qc 0 <= rem360 p /\ rem360 p < c360) /\
   (p <= Q2Qc 0 -> - c360 < rem360 p /\ rem360 p <= Q2Qc 0))%Qc.
Proof.
  pose proof (Qcmult_div_r p c360 c360_neq0) as E.
  apply (f_equal this) in E.
  assert (E' : (this c360 * this (p / c360)%Qc == this p)%Q).
  { rewrite <- E. symmetry. apply this_mult. }
  assert (Hc : (this c360 == 360)%Q) by apply this_Q2Qc.
  pose proof (Qtrunc_bounds (this (p / c360)%Qc)) as [B1 B2].
  fold (trunc (p / c360)%Qc) in B1, B2. cbv zeta in B1, B2.
  unfold rem360, Qcle, Qclt, Qcminus.
  rewrite ?this_plus, ?this_opp, ?this_mult, ?this_Q2Qc.
  rewrite ?this_plus, ?this_opp, ?this_mult, ?this_Q2Qc.
  set (X := this (p / c360)%Qc) in *.
  set (T := inject_Z (trunc (p / c360)%Qc)) in *.
  rewrite Hc in *.
  split; intros H.
  - assert (HX : (0 <= X)%Q) by lra. specialize (B1 HX). lra.
  - assert (HX : (X <= 0)%Q) by lra. specialize (B2 HX). lra.
Qed.

Lemma rem360_gt (p : Qc) : (- c360 < rem360 p)%Qc.
Proof.
  destruct (Qclt_le_dec p (Q2Qc 0)) as [H|H].
  - apply Qclt_le_weak in H. now apply rem360_bounds.
  - apply (Qclt_le_trans _ (Q2Qc 0)); [reflexivity | now apply rem360_bounds].
Qed.

(** The remainder differs from the dividend by a whole number of turns. *)
Lemma rem360_congruent (p : Qc) :
  rem360 p = (p + c360 * Q2Qc (inject_Z (- trunc (p / c360))))%Qc.
Proof.
  apply Qc_is_canon. unfold rem360, Qcminus.
  rewrite ?this_plus, ?this_opp, ?this_mult, ?this_Q2Qc.
  rewrite ?this_plus, ?this_opp, ?this_mult, ?this_Q2Qc.
  rewrite inject_Z_opp. ring.
Qed.

Lemma normalizedPan_Fin (fl : Qc -> Qc) (s : state) (p : Qc) :
  pan s = Fin p ->
  normalizedPan fl s = Fin (rem360 (fl (rem360 p + c360)%Qc)).
Proof. unfold normalizedPan. intros ->. reflexivity. Qed.

(** With pan = [NaN], which a blank or non-numeric entry stores, the compass
    value is [NaN], whatever the rounding. *)
Lemma normalizedPan_NaN (fl : Qc -> Qc) (s : state) :
  pan s = NaN -> normalizedPan fl s = NaN.
Proof. unfold normalizedPan. intros ->. reflexivity. Qed.

(** C7, as stated, fails: after a blank entry in the pan field the stored pan
    is [NaN] and [normalizedPan] returns [NaN], which is no value of
    [[0, 360)]. *)
Lemma normalizedPan_counterexample :
  pan (onPTZInputChange "pan" NaN state0) = NaN /\
  normalizedPan (fun q => q) (onPTZInputChange "pan" NaN state0) = NaN /\
  ~ (exists r : Qc,
        normalizedPan (fun q => q) (onPTZInputChange "pan" NaN state0) = Fin r /\
        (Q2Qc 0 <= r)%Qc /\ (r < c360)%Qc).
Proof.
  split; [reflexivity | split; [reflexivity|]].
  intros (r & H & _). discriminate H.
Qed.

(** The congruence with the stored pan is lost where the sum rounds: for
    pan = -2^-70 the sum 360 - 2^-70 rounds to 360 in binary64, the result is
    0, and 0 is not pan plus a multiple of 360. *)
Lemma normalizedPan_rounding_loses_congruence (fl : Qc -> Qc) :
  fl (c360 + - Q2Qc (1 # 2 ^ 70))%Qc = c360 ->
  normalizedPan fl (set_pan (Fin (- Q2Qc (1 # 2 ^ 70))%Qc) state0) = ofZ 0 /\
  ~ (exists k : Z,
        Q2Qc 0 = (- Q2Qc (1 # 2 ^ 70) + c360 * Q2Qc (inject_Z k))%Qc).
Proof.
  intros Hfl. split.
  - rewrite (normalizedPan_Fin fl
               (set_pan (Fin (- Q2Qc (1 # 2 ^ 70))%Qc) state0)
               (- Q2Qc (1 # 2 ^ 70))%Qc eq_refl).
    assert (E : (rem360 (- Q2Qc (1 # 2 ^ 70)) + c360)%Qc
                = (c360 + - Q2Qc (1 # 2 ^ 70))%Qc)
      by (apply Qc_is_canon; vm_compute; reflexivity).
    rewrite E, Hfl. js_eval.
  - intros [k H]. apply (f_equal this) in H.
    assert (H' : (0 == - (1 # 2 ^ 70) + 360 * inject_Z k)%Q).
    { rewrite <- (this_Q2Qc 0), H.
      rewrite ?this_plus, ?this_opp, ?this_mult, ?this_Q2Qc.
      unfold c360. rewrite ?this_Q2Qc. reflexivity. }
    assert (H2 : (inject_Z (360 * k) == 1 # 2 ^ 70)%Q).
    { rewrite inject_Z_mult. change (inject_Z 360) with 360%Q. lra. }
    unfold Qeq, inject_Z in H2. cbn [Qnum Qden] in H2.
    let c := eval vm_compute in (Z.pos (2 ^ 70)) in
    change (Z.pos (2 ^ 70)) with c in H2.
    lia.
Qed.

(** C7, amended: for every finite stored pan, negative or beyond one turn,
    [normalizedPan] is [((pan % 360) + 360) % 360], a value [r] with
    [0 <= r < 360], whatever the rounding of the sum (which keeps the sign);
    [r] differs from the stored pan by a whole multiple of 360 when the sum
    is exact.  For pan = [NaN] it is [NaN].  Computing it, as
    [updateOrientationWidget] does for the compass, returns the state as it
    was. *)
Theorem normalizedPan_spec (fl : Qc -> Qc) (s : state) :
  (forall q : Qc, (Q2Qc 0 <= q)%Qc -> (Q2Qc 0 <= fl q)%Qc) ->
  normalizedPan fl s
    = rem (rounded fl (add (rem (pan s) (ofZ 360)) (ofZ 360))) (ofZ 360) /\
  (forall p : Qc,
      pan s = Fin p ->
      exists r : Qc,
        normalizedPan fl s = Fin r /\
        (Q2Qc 0 <= r)%Qc /\ (r < c360)%Qc /\
        (fl (rem360 p + c360)%Qc = (rem360 p + c360)%Qc ->
         exists k : Z, r = (p + c360 * Q2Qc (inject_Z k))%Qc)) /\
  (pan s = NaN -> normalizedPan fl s = NaN) /\
  snd (updateOrientationWidget fl s) = s /\
  compassDegrees (fst (updateOrientationWidget fl s)) = normalizedPan fl s.
Proof.
  intros Hfl.
  split; [reflexivity | split; [| split; [apply normalizedPan_NaN | split; reflexivity]]].
  intros p Hp.
  exists (rem360 (fl (rem360 p + c360)%Qc)). split; [now apply normalizedPan_Fin|].
  assert (H0 : (Q2Qc 0 <= rem360 p + c360)%Qc).
  { pose proof (rem360_gt p) as G. unfold Qcle, Qclt in *.
    rewrite ?this_plus, ?this_opp, ?this_Q2Qc in *. lra. }
  destruct (rem360_bounds (fl (rem360 p + c360)%Qc)) as [B _].
  destruct (B (Hfl _ H0)) as [B1 B2]. split; [exact B1 | split; [exact B2 |]].
  intros ->.
  exists (1 - trunc (p / c360) - trunc ((rem360 p + c360) / c360)).
  rewrite (rem360_congruent (rem360 p + c360)), (rem360_congruent p).
  apply Qc_is_canon.
  rewrite ?this_plus, ?this_opp, ?this_mult, ?this_Q2Qc.
  rewrite ?this_plus, ?this_opp, ?this_mult, ?this_Q2Qc.
  unfold Z.sub. rewrite !inject_Z_plus, !inject_Z_opp.
  change (inject_Z 1) with 1%Q. ring.
Qed.

Lemma normalizedPan_spec_witness :
  (forall q : Qc, (Q2Qc 0 <= q)%Qc -> (Q2Qc 0 <= (fun a : Qc => a) q)%Qc) /\
  exists r : Qc,
    normalizedPan (fun a => a) (set_pan (ofZ (-30)) state0) = Fin r /\
    (Q2Qc 0 <= r)%Qc /\ (r < c360)%Qc.
Proof.
  split; [intros q H; exact H|].
  destruct (normalizedPan_spec (fun a => a) (set_pan (ofZ (-30)) state0)
              (fun q H => H))
    as [_ [F _]].
  destruct (F (Q2Qc (inject_Z (-30))) eq_refl) as [r [H1 [H2 [H3 _]]]].
  exists r. repeat split; assumption.
Defined.

(** Integer pans: every step is exact. *)
Example normalizedPan_minus30 (fl : Qc -> Qc) :
  fl (Q2Qc (inject_Z 330)) = Q2Qc (inject_Z 330) ->
  normalizedPan fl (set_pan (ofZ (-30)) state0) = ofZ 330.
Proof.
  intros H. rewrite (normalizedPan_Fin fl (set_pan (ofZ (-30)) state0)
                      (Q2Qc (inject_Z (-30))) eq_refl).
  assert (E : (rem360 (Q2Qc (inject_Z (-30))) + c360)%Qc = Q2Qc (inject_Z 330))
    by (apply Qc_is_canon; vm_compute; reflexivity).
  rewrite E, H. js_eval.
Qed.

Example normalizedPan_725 (fl : Qc -> Qc) :
  fl (Q2Qc (inject_Z 365)) = Q2Qc (inject_Z 365) ->
  normalizedPan fl (set_pan (ofZ 725) state0) = ofZ 5.
Proof.
  intros H. rewrite (normalizedPan_Fin fl (set_pan (ofZ 725) state0)
                      (Q2Qc (inject_Z 725)) eq_refl).
  assert (E : (rem360 (Q2Qc (inject_Z 725)) + c360)%Qc = Q2Qc (inject_Z 365))
    by (apply Qc_is_canon; vm_compute; reflexivity).
  rewrite E, H. js_eval.
Qed.

(* ================================================================= *)
(** ** The raw render loop (C9) *)

(** Outside the raw view a run of [renderRawView] returns at its first test:
    no call on either canvas, no new request for an animation frame. *)
Lemma renderRawView_not_raw (w : page) :
  currentView (st w) <> rawview -> renderRawView w = w.
Proof.
  intros H. unfold renderRawView.
  destruct (currentView (st w)); try reflexivity. now elim H.
Qed.

(** In the raw view, with both canvases, a run draws and asks for the next
    frame. *)
Lemma renderRawView_raw (w : page) (frontCanvas backCanvas : canvas) :
  currentView (st w) = rawview ->
  rawFrontCanvas w = Some frontCanvas -> rawBackCanvas w = Some backCanvas ->
  pendingRaw (renderRawView w) = S (pendingRaw w) /\
  calls (renderRawView w) <> calls w.
Proof.
  intros Hv Hf Hb. unfold renderRawView. rewrite Hv, Hf, Hb.
  cbn [View_eqb negb]. change (st (emit _ w)) with (st w).
  destruct (videoReady (st w)); (split; [reflexivity|]);
    cbn -[ofZ div sub mul add Math_min]; intros E;
    apply (f_equal (@List.length call)) in E;
    rewrite !length_app in E; cbn [List.length] in E; lia.
Qed.

Lemma iter_renderRawView_not_raw (n : nat) (w : page) :
  currentView (st w) <> rawview -> Nat.iter n renderRawView w = w.
Proof.
  intros H. induction n as [|n IH]; [reflexivity|].
  rewrite Nat.iter_succ, IH. now apply renderRawView_not_raw.
Qed.

Lemma resetView_view (s : state) : currentView (resetView s) = currentView s.
Proof. unfold resetView. destruct (currentView s) eqn:E; exact E. Qed.

Lemma onKeyDown_view (inField : bool) (key : string) (s : state) :
  currentView (onKeyDown inField key s) = currentView s.
Proof.
  unfold onKeyDown. split_ifs; try reflexivity. apply resetView_view.
Qed.

Lemma onPTZInputChange_view (type : string) (value : num) (s : state) :
  currentView (onPTZInputChange type value s) = currentView s.
Proof. unfold onPTZInputChange. now split_ifs. Qed.

Section LoopFacts.

Variable Math_sqrt : num -> num.

(** Outside the raw view, an event other than the selection of the raw view
    makes no canvas call, keeps the view out of raw, and never adds a waiting
    [renderRawView]; an animation frame leaves none waiting. *)
Lemma dispatch_not_raw (e : event) (w : page) :
  currentView (st w) <> rawview -> isRawChange e = false ->
  calls (dispatch Math_sqrt e w) = calls w /\
  currentView (st (dispatch Math_sqrt e w)) <> rawview /\
  (pendingRaw (dispatch Math_sqrt e w) <= pendingRaw w)%nat /\
  (e = AnimationFrame -> pendingRaw (dispatch Math_sqrt e w) = 0%nat).
Proof.
  intros Hv He.
  destruct e; cbn [dispatch on_st set_st st calls pendingRaw];
    try (split; [reflexivity | split; [| split; [apply Nat.le_refl | discriminate]]]).
  - destruct newView; try discriminate He; cbn;
      (split; [reflexivity | split; [discriminate | split; [apply Nat.le_refl | discriminate]]]).
  - unfold onMouseDown. now split_ifs.
  - unfold onMouseMove. now split_ifs.
  - exact Hv.
  - exact Hv.
  - unfold onTouchStart. destruct touches as [|t0 [|t1 [|? ?]]]; exact Hv.
  - unfold onTouchMove. destruct touches as [|t0 [|t1 [|? ?]]]; try exact Hv.
    now split_ifs.
  - exact Hv.
  - now rewrite onKeyDown_view.
  - now rewrite onPTZInputChange_view.
  - now rewrite resetView_view.
  - exact Hv.
  - exact Hv.
  - unfold animationFrame. rewrite iter_renderRawView_not_raw by exact Hv.
    cbn. split; [reflexivity | split; [exact Hv | split; [lia | reflexivity]]].
Qed.

Lemma run_not_raw (es : list event) (w : page) :
  currentView (st w) <> rawview ->
  Forall (fun e => isRawChange e = false) es ->
  calls (run Math_sqrt es w) = calls w /\
  currentView (st (run Math_sqrt es w)) <> rawview /\
  (pendingRaw (run Math_sqrt es w) <= pendingRaw w)%nat /\
  (In AnimationFrame es -> pendingRaw (run Math_sqrt es w) = 0%nat).
Proof.
  revert w. induction es as [|e es IH]; intros w Hv Hes.
  - cbn. repeat split; auto. intros [].
  - inversion Hes as [|? ? He Hes']; subst.
    destruct (dispatch_not_raw e w Hv He) as [D1 [D2 [D3 D4]]].
    destruct (IH (dispatch Math_sqrt e w) D2 Hes') as [I1 [I2 [I3 I4]]].
    cbn [run]. split; [congruence | split; [exact I2 | split; [lia |]]].
    intros [->|Hin].
    + specialize (D4 eq_refl). lia.
    + now apply I4.
Qed.

(** C9: once a view other than the raw one has been selected, and until the
    raw view is selected again, no event adds a call on the raw canvases: each
    waiting [renderRawView] tests [currentView] first and returns without
    drawing and without asking for another frame, so that after the first
    animation frame none is waiting. *)
Theorem raw_loop_stops (w : page) (newView : View) (es : list event) :
  newView <> rawview ->
  Forall (fun e => isRawChange e = false) es ->
  let w1 := handleViewChange newView w in
  calls w1 = calls w /\
  renderRawView w1 = w1 /\
  calls (run Math_sqrt es w1) = calls w /\
  (In AnimationFrame es -> pendingRaw (run Math_sqrt es w1) = 0%nat).
Proof.
  intros Hn Hes w1.
  assert (Hv : currentView (st w1) <> rawview)
    by (subst w1; destruct newView; try discriminate; now elim Hn).
  assert (Hc : calls w1 = calls w)
    by (subst w1; destruct newView; try reflexivity; now elim Hn).
  destruct (run_not_raw es w1 Hv Hes) as [R1 [_ [_ R4]]].
  split; [exact Hc | split; [now apply renderRawView_not_raw | split]].
  - congruence.
  - exact R4.
Qed.

End LoopFacts.

Lemma raw_loop_stops_witness :
  stitched <> rawview /\
  calls (run (fun d => d)
           [AnimationFrame; Wheel (ofZ (-100)); AnimationFrame]
           (handleViewChange stitched (rawPage (Some video3840x1920) 800 600)))
  = calls (rawPage (Some video3840x1920) 800 600).
Proof.
  split; [discriminate|].
  apply (raw_loop_stops (fun d => d) (rawPage (Some video3840x1920) 800 600)
           stitched [AnimationFrame; Wheel (ofZ (-100)); AnimationFrame]).
  - discriminate.
  - repeat constructor.
Defined.

(** While the raw view stays selected the loop keeps drawing: one frame of
    the sample page adds four canvas calls and leaves one callback waiting. *)
Example raw_loop_runs :
  let w := animationFrame (rawPage (Some video3840x1920) 800 600) in
  List.length (calls w) = 4%nat /\ pendingRaw w = 1%nat.
Proof. split; reflexivity. Qed.

(** Leaving the raw view and selecting it again before the next animation
    frame leaves two [renderRawView] callbacks waiting. *)
Example raw_loop_doubles :
  pendingRaw (handleViewChange rawview
                (handleViewChange stitched
                   (rawPage (Some video3840x1920) 800 600))) = 2%nat.
Proof. reflexivity. Qed.

(* ================================================================= *)
(** ** What a run of [renderRawView] can change in [state] *)

Lemma set_rawViewInitialized_id (s : state) :
  set_rawViewInitialized (rawViewInitialized s) s = s.
Proof. now destruct s. Qed.

Lemma iter_renderRawView_state (n : nat) (w : page) :
  exists b, st (Nat.iter n renderRawView w) = set_rawViewInitialized b (st w).
Proof.
  induction n as [|n [b IH]].
  - exists (rawViewInitialized (st w)). symmetry. apply set_rawViewInitialized_id.
  - rewrite Nat.iter_succ. eexists.
    rewrite renderRawView_state, IH. reflexivity.
Qed.

Lemma animationFrame_state (w : page) :
  exists b, st (animationFrame w) = set_rawViewInitialized b (st w).
Proof.
  unfold animationFrame.
  apply (iter_renderRawView_state (pendingRaw w)
           (mkPage (st w) (rawFrontCanvas w) (rawBackCanvas w) 0 (calls w))).
Qed.

Lemma updateRawView_state (w : page) :
  exists b, st (updateRawView w) = set_rawViewInitialized b (st w).
Proof.
  unfold updateRawView.
  destruct (rawFrontCanvas w), (rawBackCanvas w), (video (st w));
    try (exists (rawViewInitialized (st w)); symmetry;
         apply set_rawViewInitialized_id).
  eexists. rewrite renderRawView_state. reflexivity.
Qed.

(** The state after a view change: the assignments of the selected case,
    and for the raw view some value of [rawViewInitialized]. *)
Lemma handleViewChange_state (newView : View) (w : page) :
  exists b,
    st (handleViewChange newView w)
    = set_rawViewInitialized b
        (match newView with
         | stitched => set_viewLocked false
         | front | flatview => fun s => setFrontView (set_viewLocked true s)
         | back => fun s => setBackView (set_viewLocked true s)
         | rawview => fun s => s
         end (set_currentView newView (st w))).
Proof.
  destruct newView;
    try (eexists; symmetry; apply set_rawViewInitialized_id).
  unfold handleViewChange.
  destruct (updateRawView_state
              (on_st (set_rawViewInitialized false)
                 (on_st (set_currentView rawview) w))) as [b Hb].
  exists b. rewrite Hb. reflexivity.
Qed.

(* ================================================================= *)
(** ** The range invariant along every run of well-formed events *)

Lemma isFinite_Fin (a : num) : isFinite a = true -> exists q, a = Fin q.
Proof. destruct a; try discriminate. intros _. now eexists. Qed.

Lemma within_isFinite (lo hi : Z) (a : num) : within lo hi a -> isFinite a = true.
Proof. now destruct a. Qed.

Lemma within_const (lo hi z : Z) :
  (lo <= z)%Z -> (z <= hi)%Z -> within lo hi (ofZ z).
Proof. intros H1 H2. split; now apply ofZ_le. Qed.

Lemma Qc_square_sum_nonneg (a b : Qc) : (Q2Qc 0 <= a * a + b * b)%Qc.
Proof.
  unfold Qcle. rewrite ?this_plus, ?this_mult, ?this_Q2Qc. nra.
Qed.

Lemma steady_setFrontView (s : state) : steady s -> steady (setFrontView s).
Proof.
  intros (Ht & Hz & Hit & Hiz & Hx & Hy & Hd).
  steady_split; try assumption; try reflexivity.
  now apply (within_const 20 120 100).
Qed.

Lemma steady_setBackView (s : state) : steady s -> steady (setBackView s).
Proof.
  intros (Ht & Hz & Hit & Hiz & Hx & Hy & Hd).
  steady_split; try assumption; try reflexivity.
  now apply (within_const 20 120 100).
Qed.

Lemma steady_resetView (s : state) : steady s -> steady (resetView s).
Proof.
  intros H. unfold resetView.
  destruct (currentView s);
    try (now apply steady_setFrontView); try (now apply steady_setBackView);
    destruct H as (Ht & Hz & Hit & Hiz & Hx & Hy & Hd);
    steady_split; try assumption;
    now apply (within_isFinite (-90) 90).
Qed.

Lemma steady_dragTo (cx cy : num) (s : state) :
  isFinite cx = true -> isFinite cy = true -> steady s ->
  steady (dragTo cx cy s) /\ within (-90) 90 (tilt (dragTo cx cy s)).
Proof.
  intros Hcx Hcy (Ht & Hz & Hit & Hiz & Hx & Hy & Hd).
  assert (W : within (-90) 90 (tilt (dragTo cx cy s))).
  { apply (clamp_within (-90) 90); [lia|]. simpl_state.
    destruct (isFinite_Fin _ Ht) as [t ->].
    destruct (isFinite_Fin _ Hcy) as [c ->].
    destruct (isFinite_Fin _ Hy) as [py ->]. reflexivity. }
  split; [|exact W].
  unfold dragTo in *. steady_split; try assumption.
  now apply (within_isFinite (-90) 90).
Qed.

Lemma steady_onMouseWheel (deltaY : num) (s : state) :
  isFinite deltaY = true -> steady s -> steady (onMouseWheel deltaY s).
Proof.
  intros Hd' (Ht & Hz & Hit & Hiz & Hx & Hy & Hd).
  unfold onMouseWheel. steady_split; try assumption.
  apply (clamp_within 20 120); [lia|].
  destruct (isFinite_Fin _ (within_isFinite _ _ _ Hz)) as [z ->].
  destruct (isFinite_Fin _ Hd') as [d ->]. reflexivity.
Qed.

Lemma steady_onPTZInputChange (type : string) (value : num) (s : state) :
  isNaN value = false -> steady s ->
  steady (onPTZInputChange type value s) /\
  (within (-90) 90 (tilt s) ->
   within (-90) 90 (tilt (onPTZInputChange type value s))).
Proof.
  intros Hv (Ht & Hz & Hit & Hiz & Hx & Hy & Hd).
  unfold onPTZInputChange.
  destruct (String.eqb type "pan");
    [split; [steady_split; assumption | intros W; exact W]|].
  destruct (String.eqb type "tilt").
  { assert (W := clamp_within (-90) 90 value ltac:(lia) Hv).
    split; [|intros _; exact W]. steady_split; try assumption.
    now apply (within_isFinite (-90) 90). }
  destruct (String.eqb type "zoom");
    (split; [steady_split; try assumption | intros W; exact W]).
  now apply (clamp_within 20 120).
Qed.

Lemma steady_calibrateFrontLens (s : state) :
  steady s -> steady (calibrateFrontLens s).
Proof.
  intros (Ht & Hz & Hit & Hiz & Hx & Hy & Hd).
  unfold calibrateFrontLens. steady_split; assumption.
Qed.

(** The tilt keys keep tilt finite, and every other key keeps tilt as it is
    or sets it from a named view or from the initial orientation. *)
Lemma steady_onKeyDown (inField : bool) (key : string) (s : state) :
  steady s ->
  steady (onKeyDown inField key s) /\
  (isTiltKey (KeyDown inField key) = false -> within (-90) 90 (tilt s) ->
   within (-90) 90 (tilt (onKeyDown inField key s))).
Proof.
  intros H. unfold onKeyDown, isTiltKey.
  destruct inField; [split; [exact H | intros _ W; exact W]|].
  destruct (String.eqb key "ArrowUp") eqn:E1.
  { split; [|discriminate].
    destruct H as (Ht & Hz & Hit & Hiz & Hx & Hy & Hd).
    steady_split; try assumption.
    destruct (isFinite_Fin _ Ht) as [t ->]. unfold ofZ, add, Math_max.
    now destruct (leb _ _). }
  destruct (String.eqb key "ArrowDown") eqn:E2.
  { split; [|discriminate].
    destruct H as (Ht & Hz & Hit & Hiz & Hx & Hy & Hd).
    steady_split; try assumption.
    destruct (isFinite_Fin _ Ht) as [t ->]. unfold ofZ, sub, add, neg, Math_min.
    now destruct (leb _ _). }
  destruct (String.eqb key "r") eqn:E3.
  { split; [now apply steady_resetView|]. intros _ W.
    destruct H as (Ht & Hz & Hit & Hiz & Hx & Hy & Hd).
    unfold resetView. destruct (currentView s); simpl_state;
      try exact Hit; now apply (within_const (-90) 90 0). }
  destruct (String.eqb key "c") eqn:E4.
  { split; [now apply steady_calibrateFrontLens | intros _ W; exact W]. }
  destruct (String.eqb key "a") eqn:E5.
  { split; [exact H | intros _ W; exact W]. }
  destruct (String.eqb key "d") eqn:E6.
  { split; [exact H | intros _ W; exact W]. }
  destruct (String.eqb key "w") eqn:E7.
  { split; [|discriminate].
    destruct H as (Ht & Hz & Hit & Hiz & Hx & Hy & Hd).
    steady_split; try assumption.
    destruct (isFinite_Fin _ Ht) as [t ->]. unfold ofZ, add, Math_max.
    now destruct (leb _ _). }
  destruct (String.eqb key "s") eqn:E8.
  { split; [|discriminate].
    destruct H as (Ht & Hz & Hit & Hiz & Hx & Hy & Hd).
    steady_split; try assumption.
    destruct (isFinite_Fin _ Ht) as [t ->]. unfold ofZ, sub, add, neg, Math_min.
    now destruct (leb _ _). }
  pose proof (zoom_keys_keep_range s) as ZK.
  destruct H as (Ht & Hz & Hit & Hiz & Hx & Hy & Hd).
  destruct (ZK Hz) as [Zp Zm].
  destruct (String.eqb key "+" || String.eqb key "=").
  { split; [|intros _ W; exact W].
    steady_split; try assumption. }
  destruct (String.eqb key "-" || String.eqb key "_").
  { split; [|intros _ W; exact W].
    steady_split; try assumption. }
  split; [steady_split; assumption | intros _ W; exact W].
Qed.

Section Invariants.

Variable Math_sqrt : num -> num.

(** [Math.sqrt] of a finite value that is not negative is finite. *)
Hypothesis Math_sqrt_finite :
  forall q : Qc, (Q2Qc 0 <= q)%Qc -> isFinite (Math_sqrt (Fin q)) = true.

Lemma touchDistance_finite (t0 t1 : point) :
  finitePoint t0 = true -> finitePoint t1 = true ->
  isFinite (touchDistance Math_sqrt t0 t1) = true.
Proof.
  unfold finitePoint. rewrite !andb_true_iff. intros [Hx0 Hy0] [Hx1 Hy1].
  unfold touchDistance.
  destruct (isFinite_Fin _ Hx0) as [a ->]. destruct (isFinite_Fin _ Hy0) as [b ->].
  destruct (isFinite_Fin _ Hx1) as [c ->]. destruct (isFinite_Fin _ Hy1) as [d ->].
  unfold sub, neg, add, mul. apply Math_sqrt_finite. apply Qc_square_sum_nonneg.
Qed.

Lemma steady_onTouchStart (touches : list point) (s : state) :
  forallb finitePoint touches = true -> steady s ->
  steady (onTouchStart Math_sqrt touches s) /\
  tilt (onTouchStart Math_sqrt touches s) = tilt s.
Proof.
  intros Hf H. split; [|now destruct touches as [|t0 [|t1 [|? ?]]]].
  destruct H as (Ht & Hz & Hit & Hiz & Hx & Hy & Hd).
  destruct touches as [|t0 [|t1 [|? ?]]]; cbn [onTouchStart];
    try (steady_split; assumption).
  - cbn [forallb] in Hf. rewrite andb_true_r in Hf. unfold finitePoint in Hf.
    apply andb_true_iff in Hf. destruct Hf. steady_split; assumption.
  - cbn [forallb] in Hf. rewrite andb_true_r in Hf.
    apply andb_true_iff in Hf. destruct Hf.
    steady_split; try assumption. now apply touchDistance_finite.
Qed.

Lemma steady_onTouchMove (touches : list point) (s : state) :
  forallb finitePoint touches = true -> steady s ->
  steady (onTouchMove Math_sqrt touches s) /\
  (within (-90) 90 (tilt s) ->
   within (-90) 90 (tilt (onTouchMove Math_sqrt touches s))).
Proof.
  intros Hf H.
  destruct touches as [|t0 [|t1 [|? ?]]]; cbn [onTouchMove];
    try (split; [exact H | intros W; exact W]).
  - cbn [forallb] in Hf. rewrite andb_true_r in Hf. unfold finitePoint in Hf.
    apply andb_true_iff in Hf. destruct Hf as [Hx0 Hy0].
    destruct (isDragging s); [|split; [exact H | intros W; exact W]].
    destruct (steady_dragTo _ _ s Hx0 Hy0 H) as [S W]. split; [exact S|].
    intros _. exact W.
  - cbn [forallb] in Hf. rewrite andb_true_r in Hf.
    apply andb_true_iff in Hf. destruct Hf as [H0 H1].
    pose proof (touchDistance_finite t0 t1 H0 H1) as HD.
    destruct H as (Ht & Hz & Hit & Hiz & Hx & Hy & Hd).
    split; [|intros W; exact W].
    steady_split; try assumption.
    apply (clamp_within 20 120); [lia|].
    destruct (isFinite_Fin _ (within_isFinite _ _ _ Hz)) as [z ->].
    destruct (isFinite_Fin _ Hd) as [d ->].
    destruct (isFinite_Fin _ HD) as [d' ->]. reflexivity.
Qed.

Lemma steady_set_rawViewInitialized (b : bool) (s : state) :
  steady s -> steady (set_rawViewInitialized b s).
Proof. intros H. exact H. Qed.

(** One event: [steady] is kept by every well-formed event, and tilt stays in
    range under every well-formed event that is not a tilt key. *)
Lemma steady_dispatch (e : event) (w : page) :
  finiteEvent e = true -> steady (st w) ->
  steady (st (dispatch Math_sqrt e w)) /\
  (isTiltKey e = false -> within (-90) 90 (tilt (st w)) ->
   within (-90) 90 (tilt (st (dispatch Math_sqrt e w)))).
Proof.
  intros Hf H.
  destruct e; cbn [dispatch]; cbn [finiteEvent] in Hf.
  - destruct (handleViewChange_state newView w) as [b ->].
    destruct newView; cbn [tilt set_rawViewInitialized]; (split;
      [ apply steady_set_rawViewInitialized;
        first [ exact H | now apply steady_setFrontView
              | now apply steady_setBackView ]
      | intros _ W; first [ exact W | now apply (within_const (-90) 90 0) ] ]).
  - apply andb_true_iff in Hf. destruct Hf as [Hcx Hcy].
    destruct H as (Ht & Hz & Hit & Hiz & Hx & Hy & Hd).
    unfold onMouseDown. simpl_state. destruct (viewLocked (st w));
      (split; [steady_split; assumption | intros _ W; exact W]).
  - apply andb_true_iff in Hf. destruct Hf as [Hcx Hcy].
    unfold onMouseMove. simpl_state.
    destruct (isDragging (st w)); cbn [negb];
      [|split; [exact H | intros _ W; exact W]].
    destruct (steady_dragTo _ _ (st w) Hcx Hcy H) as [S W].
    split; [exact S | intros _ _; exact W].
  - split; [exact H | intros _ W; exact W].
  - simpl_state. split; [now apply steady_onMouseWheel | intros _ W; exact W].
  - simpl_state. destruct (steady_onTouchStart touches (st w) Hf H) as [S E].
    split; [exact S | intros _ W; now rewrite E].
  - simpl_state. destruct (steady_onTouchMove touches (st w) Hf H) as [S W].
    split; [exact S | intros _; exact W].
  - split; [exact H | intros _ W; exact W].
  - simpl_state. apply steady_onKeyDown. exact H.
  - simpl_state. apply negb_true_iff in Hf.
    destruct (steady_onPTZInputChange type value (st w) Hf H) as [S W].
    split; [exact S | intros _; exact W].
  - simpl_state. split; [now apply steady_resetView|]. intros _ W.
    destruct H as (Ht & Hz & Hit & Hiz & Hx & Hy & Hd).
    unfold resetView. destruct (currentView (st w)); simpl_state;
      try exact Hit; now apply (within_const (-90) 90 0).
  - simpl_state. split; [now apply steady_calibrateFrontLens | intros _ W; exact W].
  - split; [exact H | intros _ W; exact W].
  - destruct (animationFrame_state w) as [b ->].
    split; [exact H | intros _ W; exact W].
Qed.

(** X1: zoom stays in [[20, 120]] along every sequence of well-formed events,
    the tilt keys included. *)
Theorem zoom_in_range_along_run (es : list event) (w : page) :
  steady (st w) -> forallb finiteEvent es = true ->
  steady (st (run Math_sqrt es w)) /\
  within 20 120 (zoom (st (run Math_sqrt es w))).
Proof.
  revert w. induction es as [|e es IH]; intros w H Hf.
  - split; [exact H | apply H].
  - cbn [forallb] in Hf. apply andb_true_iff in Hf. destruct Hf as [He Hes].
    cbn [run]. apply IH; [|exact Hes].
    now apply steady_dispatch.
Qed.

(** X2: tilt stays in [[-90, 90]] along every sequence of well-formed events in
    which none of the four tilt keys is pressed. *)
Theorem tilt_in_range_without_tilt_keys (es : list event) (w : page) :
  steady (st w) -> within (-90) 90 (tilt (st w)) ->
  forallb finiteEvent es = true ->
  forallb (fun e => negb (isTiltKey e)) es = true ->
  within (-90) 90 (tilt (st (run Math_sqrt es w))).
Proof.
  revert w. induction es as [|e es IH]; intros w H W Hf Hk.
  - exact W.
  - cbn [forallb] in Hf, Hk.
    apply andb_true_iff in Hf. destruct Hf as [He Hes].
    apply andb_true_iff in Hk. destruct Hk as [Hk Hks].
    apply negb_true_iff in Hk.
    destruct (steady_dispatch e w He H) as [S T].
    cbn [run]. apply IH; auto.
Qed.

End Invariants.

Lemma steady_state0 : steady state0.
Proof.
  unfold state0. steady_split; try reflexivity;
    first [ apply (within_const 20 120 75) | apply (within_const (-90) 90 0) ];
    lia.
Qed.

Lemma zoom_in_range_along_run_witness :
  steady (st page0) /\
  within 20 120
    (zoom (st (run (fun a => a)
                 [Wheel (ofZ 100000); KeyDown false "-"; KeyDown false "w";
                  TouchStart [mkPoint (ofZ 0) (ofZ 0); mkPoint (ofZ 3) (ofZ 4)];
                  TouchMove [mkPoint (ofZ 0) (ofZ 0); mkPoint (ofZ 300) (ofZ 400)];
                  PTZChange "zoom" PInf; ResetClick]
                 page0))).
Proof.
  split; [exact steady_state0|].
  apply (zoom_in_range_along_run (fun a => a) (fun q _ => eq_refl)).
  - exact steady_state0.
  - reflexivity.
Defined.

Lemma tilt_in_range_without_tilt_keys_witness :
  within (-90) 90 (tilt (st page0)) /\
  within (-90) 90
    (tilt (st (run (fun a => a)
                 [MouseDown (ofZ 10) (ofZ 10); MouseMove (ofZ 10) (ofZ 5000);
                  PTZChange "tilt" NInf; KeyDown false "r";
                  TouchStart [mkPoint (ofZ 0) (ofZ 0)];
                  TouchMove [mkPoint (ofZ 0) (ofZ (-700))]]
                 page0))).
Proof.
  assert (W : within (-90) 90 (tilt (st page0)))
    by (apply (within_const (-90) 90 0); lia).
  split; [exact W|].
  apply (tilt_in_range_without_tilt_keys (fun a => a) (fun q _ => eq_refl)).
  - exact steady_state0.
  - exact W.
  - reflexivity.
  - reflexivity.
Defined.

(* ================================================================= *)
(** ** Which events touch the calibration and the lock *)

Lemma resetView_initialOrientation (s : state) :
  initialOrientation (resetView s) = initialOrientation s /\
  frontLensOffset (resetView s) = frontLensOffset s.
Proof. unfold resetView. now destruct (currentView s). Qed.

Section Frames.

Variable Math_sqrt : num -> num.

(** One event: the stored initial tilt and zoom never change; the offset and
    the whole initial orientation change under calibration only; and
    calibration is the only writer of the initial pan, which it sets to 0. *)
Lemma dispatch_calibration_frame (e : event) (w : page) :
  o_tilt (initialOrientation (st (dispatch Math_sqrt e w)))
    = o_tilt (initialOrientation (st w)) /\
  o_zoom (initialOrientation (st (dispatch Math_sqrt e w)))
    = o_zoom (initialOrientation (st w)) /\
  (isCalibrate e = false ->
   frontLensOffset (st (dispatch Math_sqrt e w)) = frontLensOffset (st w) /\
   initialOrientation (st (dispatch Math_sqrt e w)) = initialOrientation (st w)) /\
  (o_pan (initialOrientation (st w)) = ofZ 0 ->
   o_pan (initialOrientation (st (dispatch Math_sqrt e w))) = ofZ 0).
Proof.
  destruct e; cbn [dispatch isCalibrate]; simpl_state;
    try (repeat split; (reflexivity || (intros; assumption) || discriminate)).
  - destruct (handleViewChange_state newView w) as [b ->].
    destruct newView; repeat split; intros; assumption.
  - unfold onMouseDown. destruct (viewLocked (st w));
      repeat split; intros; assumption.
  - unfold onMouseMove. destruct (isDragging (st w));
      repeat split; intros; assumption.
  - destruct touches as [|t0 [|t1 [|? ?]]]; repeat split; intros; assumption.
  - destruct touches as [|t0 [|t1 [|? ?]]]; cbn [onTouchMove];
      try destruct (isDragging (st w)); repeat split; intros; assumption.
  - destruct (resetView_initialOrientation (st w)) as [RI RO].
    unfold onKeyDown. destruct inField; [repeat split; intros; assumption|].
    destruct (String.eqb key "c") eqn:Ec; split_ifs; rewrite ?RI, ?RO;
      repeat split; intros; (reflexivity || assumption || discriminate).
  - unfold onPTZInputChange. split_ifs; repeat split; intros; assumption.
  - destruct (resetView_initialOrientation (st w)) as [RI RO].
    rewrite RI, RO. repeat split; intros; assumption.
  - destruct (animationFrame_state w) as [b ->].
    repeat split; intros; assumption.
Qed.

(** X3: along any run: the offset and the initial orientation are as they were
    unless a calibration occurred. *)
Theorem calibration_changes_offset_only (es : list event) (w : page) :
  forallb (fun e => negb (isCalibrate e)) es = true ->
  frontLensOffset (st (run Math_sqrt es w)) = frontLensOffset (st w) /\
  initialOrientation (st (run Math_sqrt es w)) = initialOrientation (st w).
Proof.
  revert w. induction es as [|e es IH]; intros w H; [now split|].
  cbn [forallb] in H. apply andb_true_iff in H. destruct H as [He Hes].
  apply negb_true_iff in He.
  destruct (dispatch_calibration_frame e w) as (_ & _ & F & _).
  destruct (F He) as [F1 F2]. cbn [run].
  destruct (IH (dispatch Math_sqrt e w) Hes) as [I1 I2].
  split; congruence.
Qed.

Lemma run_initialOrientation (es : list event) (w : page) :
  o_tilt (initialOrientation (st (run Math_sqrt es w)))
    = o_tilt (initialOrientation (st w)) /\
  o_zoom (initialOrientation (st (run Math_sqrt es w)))
    = o_zoom (initialOrientation (st w)) /\
  (o_pan (initialOrientation (st w)) = ofZ 0 ->
   o_pan (initialOrientation (st (run Math_sqrt es w))) = ofZ 0).
Proof.
  revert w. induction es as [|e es IH]; intros w; [now repeat split|].
  destruct (dispatch_calibration_frame e w) as (D1 & D2 & _ & D3).
  destruct (IH (dispatch Math_sqrt e w)) as (I1 & I2 & I3). cbn [run].
  repeat split; try congruence. intros H. now apply I3, D3.
Qed.

(** X4: from the initial page, whatever happened since, selecting the stitched
    view and resetting gives pan = 0, tilt = 0, zoom = 75 and an unlocked
    view. *)
Theorem stitched_reset_is_home (es : list event) :
  let w := run Math_sqrt (es ++ [ViewChange stitched; ResetClick]) page0 in
  pan (st w) = ofZ 0 /\ tilt (st w) = ofZ 0 /\ zoom (st w) = ofZ 75 /\
  viewLocked (st w) = false.
Proof.
  assert (R : forall es1 es2 w,
             run Math_sqrt (es1 ++ es2) w
             = run Math_sqrt es2 (run Math_sqrt es1 w)).
  { induction es1 as [|e es1 IH]; intros es2 w; [reflexivity | apply IH]. }
  cbv zeta. rewrite R.
  destruct (run_initialOrientation es page0) as (I1 & I2 & I3).
  specialize (I3 eq_refl). cbn [run dispatch handleViewChange].
  set (w := run Math_sqrt es page0) in *.
  simpl_state. unfold resetView. simpl_state.
  rewrite I1, I2, I3. repeat split.
Qed.

End Frames.

(** X5: the keyboard, the numeric fields and the wheel neither read nor write
    the view lock: each gives the same result in a locked and in an unlocked
    view, and leaves the lock as it was. *)
Theorem keyboard_and_entry_ignore_lock (b : bool) (s : state) :
  (forall inField key,
      onKeyDown inField key (set_viewLocked b s)
      = set_viewLocked b (onKeyDown inField key s)) /\
  (forall type value,
      onPTZInputChange type value (set_viewLocked b s)
      = set_viewLocked b (onPTZInputChange type value s)) /\
  (forall deltaY,
      onMouseWheel deltaY (set_viewLocked b s)
      = set_viewLocked b (onMouseWheel deltaY s)).
Proof.
  split; [|split].
  - intros inField key. unfold onKeyDown. split_ifs; try reflexivity.
    unfold resetView. simpl_state. now destruct (currentView s).
  - intros type value. unfold onPTZInputChange. now split_ifs.
  - reflexivity.
Qed.

(* ================================================================= *)
(** ** Gestures end, resets repeat *)

Section Gestures.

Variable Math_sqrt : num -> num.

Lemma set_st_id (w : page) : set_st (st w) w = w.
Proof. now destruct w. Qed.

Lemma dragMove_not_dragging (e : event) (w : page) :
  isDragging (st w) = false -> isDragMove e = true ->
  dispatch Math_sqrt e w = w.
Proof.
  intros Hd He. destruct e; try discriminate; cbn [dispatch]; unfold on_st.
  - unfold onMouseMove. rewrite Hd. apply set_st_id.
  - destruct touches as [|t0 [|? ?]]; try discriminate.
    cbn [onTouchMove]. rewrite Hd. apply set_st_id.
Qed.

(** X6: after the mouse button or the last finger is released, mouse moves and
    one-finger moves change nothing, however many follow. *)
Theorem no_drag_after_release (es : list event) (w : page) :
  forallb isDragMove es = true ->
  run Math_sqrt es (dispatch Math_sqrt MouseUp w) = dispatch Math_sqrt MouseUp w /\
  run Math_sqrt es (dispatch Math_sqrt TouchEnd w) = dispatch Math_sqrt TouchEnd w.
Proof.
  assert (G : forall es w', isDragging (st w') = false ->
                forallb isDragMove es = true -> run Math_sqrt es w' = w').
  { clear. induction es as [|e es IH]; intros w' Hd H; [reflexivity|].
    cbn [forallb] in H. apply andb_true_iff in H. destruct H as [He Hes].
    cbn [run]. rewrite (dragMove_not_dragging e w' Hd He). now apply IH. }
  intros H. split; now apply G.
Qed.

End Gestures.

Lemma no_drag_after_release_witness :
  run (fun a => a)
    [MouseMove (ofZ 500) (ofZ 500); TouchMove [mkPoint (ofZ 7) (ofZ 9)]]
    (dispatch (fun a => a) MouseUp
       (run (fun a => a) [MouseDown (ofZ 0) (ofZ 0); MouseMove (ofZ 10) (ofZ 10)]
          page0))
  = dispatch (fun a => a) MouseUp
      (run (fun a => a) [MouseDown (ofZ 0) (ofZ 0); MouseMove (ofZ 10) (ofZ 10)]
         page0).
Proof.
  apply (no_drag_after_release (fun a => a)
           [MouseMove (ofZ 500) (ofZ 500); TouchMove [mkPoint (ofZ 7) (ofZ 9)]]).
  reflexivity.
Defined.

(** X7: [resetView] is idempotent, and right after a named view is entered it
    changes nothing. *)
Theorem resetView_idempotent (s : state) (w : page) :
  resetView (resetView s) = resetView s /\
  on_st resetView (handleViewChange front w) = handleViewChange front w /\
  on_st resetView (handleViewChange back w) = handleViewChange back w /\
  on_st resetView (handleViewChange flatview w) = handleViewChange flatview w.
Proof.
  split; [|repeat split].
  unfold resetView. destruct (currentView s) eqn:E; simpl_state;
    rewrite ?E; reflexivity.
Qed.

(* ================================================================= *)
(** ** Direction of the zoom gestures, drift of the tilt keys *)


(** The two-sided clamp of a finite value, seen from a value [z] that is in
    range: it stays on the side of [z] where the clamped value was. *)
Lemma clamp_side (lo hi : Z) (z v : Qc) :
  (lo <= hi)%Z -> within lo hi (Fin z) ->
  exists r,
    Math_max (ofZ lo) (Math_min (ofZ hi) (Fin v)) = Fin r /\
    ((v <= z)%Qc -> (r <= z)%Qc) /\ ((z <= v)%Qc -> (z <= r)%Qc).
Proof.
  intros Hlh [Hlo Hhi]. pose proof (ofZ_le _ _ Hlh) as Hq.
  unfold ofZ. set (l := Q2Qc (inject_Z lo)) in *.
  set (h := Q2Qc (inject_Z hi)) in *.
  cbv beta iota delta [Math_min].
  destruct (leb (Fin h) (Fin v)) eqn:E1; cbv beta iota delta [Math_max].
  - rewrite (leb_Fin_intro _ _ Hq). exists h. split; [reflexivity|].
    apply leb_Fin_true in E1. split; intros H.
    + exact (Qcle_trans _ _ _ E1 H).
    + exact Hhi.
  - apply leb_Fin_false in E1.
    destruct (leb (Fin l) (Fin v)) eqn:E2.
    + exists v. split; [reflexivity | split; intros H; exact H].
    + apply leb_Fin_false in E2. exists l. split; [reflexivity|].
      split; intros H; [exact Hlo|].
      exfalso. apply (Qclt_not_le _ _ E2). exact (Qcle_trans _ _ _ Hlo H).
Qed.

(** X8: scrolling down (deltaY >= 0) never narrows the field of view and
    scrolling up never widens it, from any zoom that is in range. *)
Theorem wheel_direction (s : state) (d : Qc) :
  within 20 120 (zoom s) ->
  ((d <= Q2Qc 0)%Qc -> leb (zoom (onMouseWheel (Fin d) s)) (zoom s) = true) /\
  ((Q2Qc 0 <= d)%Qc -> leb (zoom s) (zoom (onMouseWheel (Fin d) s)) = true).
Proof.
  intros W. unfold onMouseWheel. simpl_state.
  destruct (zoom s) as [z| | |] eqn:Ez; try contradiction.
  unfold sub, mul, neg, add, ofQ.
  destruct (clamp_side 20 120 z (z + - (d * Q2Qc (- (5 # 100))))%Qc
              ltac:(lia) W) as (r & -> & Hdown & Hup).
  split; intros Hd; apply leb_Fin_intro.
  - apply Hdown. unfold Qcle in *.
    rewrite ?this_plus, ?this_opp, ?this_mult, ?this_Q2Qc in *. lra.
  - apply Hup. unfold Qcle in *.
    rewrite ?this_plus, ?this_opp, ?this_mult, ?this_Q2Qc in *. lra.
Qed.

Lemma wheel_direction_witness :
  within 20 120 (zoom state0) /\
  leb (zoom state0) (zoom (onMouseWheel (Fin (Q2Qc 100)) state0)) = true.
Proof.
  assert (W : within 20 120 (zoom state0))
    by (apply (within_const 20 120 75); lia).
  split; [exact W|].
  apply (wheel_direction state0 (Q2Qc 100) W). discriminate.
Defined.

(** X9: spreading two fingers never widens the field of view and pinching never
    narrows it, from any zoom that is in range; either way the distance just
    measured becomes the reference of the next step. *)
Theorem pinch_direction (Math_sqrt : num -> num) (s : state) (t0 t1 : point)
    (d0 d1 : Qc) :
  within 20 120 (zoom s) ->
  touchStartDistance s = Fin d0 ->
  touchDistance Math_sqrt t0 t1 = Fin d1 ->
  ((d0 <= d1)%Qc ->
   leb (zoom (onTouchMove Math_sqrt [t0; t1] s)) (zoom s) = true) /\
  ((d1 <= d0)%Qc ->
   leb (zoom s) (zoom (onTouchMove Math_sqrt [t0; t1] s)) = true) /\
  touchStartDistance (onTouchMove Math_sqrt [t0; t1] s) = Fin d1.
Proof.
  intros W H0 H1. cbn [onTouchMove]. simpl_state. rewrite H0, H1.
  destruct (zoom s) as [z| | |] eqn:Ez; try contradiction.
  unfold sub, add, mul, neg, ofQ.
  destruct (clamp_side 20 120 z (z + (d0 + - d1) * Q2Qc (1 # 10))%Qc
              ltac:(lia) W) as (r & -> & Hdown & Hup).
  split; [|split; [|reflexivity]]; intros Hd; apply leb_Fin_intro.
  - apply Hdown. unfold Qcle in *.
    rewrite ?this_plus, ?this_opp, ?this_mult, ?this_Q2Qc in *.
    rewrite ?this_plus, ?this_opp, ?this_mult, ?this_Q2Qc in *. lra.
  - apply Hup. unfold Qcle in *.
    rewrite ?this_plus, ?this_opp, ?this_mult, ?this_Q2Qc in *.
    rewrite ?this_plus, ?this_opp, ?this_mult, ?this_Q2Qc in *. lra.
Qed.

Lemma pinch_direction_witness :
  within 20 120 (zoom state0) /\
  leb (zoom (onTouchMove (fun a => a)
               [mkPoint (ofZ 0) (ofZ 0); mkPoint (ofZ 3) (ofZ 4)] state0))
      (zoom state0) = true.
Proof.
  assert (W : within 20 120 (zoom state0))
    by (apply (within_const 20 120 75); lia).
  split; [exact W|].
  apply (pinch_direction (fun a => a) state0 (mkPoint (ofZ 0) (ofZ 0))
           (mkPoint (ofZ 3) (ofZ 4)) (Q2Qc 0) (Q2Qc 25) W).
  - reflexivity.
  - js_eval.
  - discriminate.
Defined.




(* ================================================================= *)
(** ** Geometry of the raw split *)

Lemma sgn_pos (q : Qc) : (Q2Qc 0 < q)%Qc -> sgn q = Gt.
Proof. intros H. unfold sgn. now apply Qcgt_alt. Qed.

Lemma div_Fin_pos (p q : Qc) :
  (Q2Qc 0 < q)%Qc -> div (Fin p) (Fin q) = Fin (p / q)%Qc.
Proof. intros H. unfold div. now rewrite (sgn_pos q H). Qed.

Lemma Qc_pos_neq0 (q : Qc) : (Q2Qc 0 < q)%Qc -> q <> Q2Qc 0.
Proof. intros H E. rewrite E in H. discriminate H. Qed.

Lemma this_div_mult (p q : Qc) :
  (Q2Qc 0 < q)%Qc -> (this q * this (p / q)%Qc == this p)%Q.
Proof.
  intros H. pose proof (Qcmult_div_r p q (Qc_pos_neq0 q H)) as E.
  apply (f_equal this) in E. rewrite <- E. symmetry. apply this_mult.
Qed.

Lemma this_half (a : Qc) :
  (this (a / Q2Qc (inject_Z 2))%Qc * 2 == this a)%Q.
Proof.
  pose proof (this_div_mult a (Q2Qc (inject_Z 2)) eq_refl) as E.
  rewrite <- E. rewrite this_Q2Qc. unfold inject_Z. ring.
Qed.

(** X12: the raw split: for a ready frame whose width is the integer [n],
    one run in raw view first clears both canvases over their full size and
    then draws exactly two images, the columns [[0, n/2)] of the frame on the
    front canvas and the columns [[n/2, n)] on the back canvas, over the full
    height; the two halves tile the frame, and two canvases of the same size
    get the same destination rectangle. *)
Theorem raw_split_sources (w : page) (frontCanvas backCanvas : canvas)
    (v : videoEl) (n : Z) :
  currentView (st w) = rawview ->
  rawFrontCanvas w = Some frontCanvas -> rawBackCanvas w = Some backCanvas ->
  videoReady (st w) = Some v ->
  videoWidth v = ofZ n ->
  exists (hw : Qc) (fx fy fw fh bx by_ bw bh : num),
    calls (renderRawView w)
    = (calls w ++
       [ fillRect FrontCanvas (ofZ 0) (ofZ 0)
           (width frontCanvas) (height frontCanvas);
         fillRect BackCanvas (ofZ 0) (ofZ 0)
           (width backCanvas) (height backCanvas);
         drawImage FrontCanvas (ofZ 0) (ofZ 0) (Fin hw) (videoHeight v)
           fx fy fw fh;
         drawImage BackCanvas (Fin hw) (ofZ 0) (Fin hw) (videoHeight v)
           bx by_ bw bh ])%list /\
    add (Fin hw) (Fin hw) = ofZ n /\
    (width frontCanvas = width backCanvas ->
     height frontCanvas = height backCanvas ->
     (fx, fy, fw, fh) = (bx, by_, bw, bh)).
Proof.
  intros Hv Hf Hb Hr HW.
  unfold renderRawView. rewrite Hv, Hf, Hb.
  cbn [View_eqb negb]. change (st (emit _ w)) with (st w). rewrite Hr, HW.
  change (div (ofZ n) (ofZ 2))
    with (div (Fin (Q2Qc (inject_Z n))) (Fin (Q2Qc (inject_Z 2)))).
  rewrite (div_Fin_pos _ (Q2Qc (inject_Z 2)) eq_refl).
  set (hw := (Q2Qc (inject_Z n) / Q2Qc (inject_Z 2))%Qc).
  exists hw. do 8 eexists.
  split; [|split].
  - cbn -[ofZ div sub mul add Math_min]. rewrite <- app_assoc. reflexivity.
  - unfold add, ofZ. f_equal. apply Qc_is_canon. rewrite this_plus.
    pose proof (this_half (Q2Qc (inject_Z n))) as E. fold hw in E. lra.
  - intros Ew Eh. now rewrite Ew, Eh.
Qed.

Lemma raw_split_sources_witness :
  currentView (st (rawPage (Some video3840x1920) 800 600)) = rawview /\
  exists hw : Qc, add (Fin hw) (Fin hw) = ofZ 3840.
Proof.
  split; [reflexivity|].
  destruct (raw_split_sources (rawPage (Some video3840x1920) 800 600)
              (mkCanvas (ofZ 832) (ofZ 650) (ofZ 800) (ofZ 600))
              (mkCanvas (ofZ 832) (ofZ 650) (ofZ 800) (ofZ 600))
              video3840x1920 3840 eq_refl eq_refl eq_refl eq_refl eq_refl)
    as (hw & fx & fy & fw & fh & bx & by_ & bw & bh & _ & H & _).
  exists hw. exact H.
Defined.

(* ================================================================= *)
(** ** How many raw loops run *)

Lemma renderRawView_canvases (w : page) :
  rawFrontCanvas (renderRawView w) = rawFrontCanvas w /\
  rawBackCanvas (renderRawView w) = rawBackCanvas w.
Proof.
  unfold renderRawView.
  destruct (negb (View_eqb (currentView (st w)) rawview)); [now split|].
  destruct (rawFrontCanvas w) eqn:Ef, (rawBackCanvas w) eqn:Eb;
    try (now split).
  change (st (emit _ w)) with (st w).
  destruct (videoReady (st w)); cbn; now rewrite Ef, Eb.
Qed.

Lemma iter_renderRawView_raw (n : nat) (w : page) (frontCanvas backCanvas : canvas) :
  currentView (st w) = rawview ->
  rawFrontCanvas w = Some frontCanvas -> rawBackCanvas w = Some backCanvas ->
  pendingRaw (Nat.iter n renderRawView w) = (n + pendingRaw w)%nat /\
  currentView (st (Nat.iter n renderRawView w)) = rawview /\
  rawFrontCanvas (Nat.iter n renderRawView w) = Some frontCanvas /\
  rawBackCanvas (Nat.iter n renderRawView w) = Some backCanvas.
Proof.
  intros Hv Hf Hb. induction n as [|n (I1 & I2 & I3 & I4)]; [now repeat split|].
  rewrite Nat.iter_succ.
  destruct (renderRawView_raw _ _ _ I2 I3 I4) as [P _].
  destruct (renderRawView_canvases (Nat.iter n renderRawView w)) as [C1 C2].
  rewrite P, C1, C2, renderRawView_state. simpl_state.
  repeat split; try assumption. lia.
Qed.

Lemma animationFrame_raw (w : page) (frontCanvas backCanvas : canvas) :
  currentView (st w) = rawview ->
  rawFrontCanvas w = Some frontCanvas -> rawBackCanvas w = Some backCanvas ->
  pendingRaw (animationFrame w) = pendingRaw w /\
  currentView (st (animationFrame w)) = rawview /\
  rawFrontCanvas (animationFrame w) = Some frontCanvas /\
  rawBackCanvas (animationFrame w) = Some backCanvas.
Proof.
  intros Hv Hf Hb. unfold animationFrame.
  destruct (iter_renderRawView_raw (pendingRaw w)
              (mkPage (st w) (rawFrontCanvas w) (rawBackCanvas w) 0 (calls w))
              frontCanvas backCanvas Hv Hf Hb) as (I1 & I2 & I3 & I4).
  cbn [pendingRaw] in I1. rewrite Nat.add_0_r in I1. now repeat split.
Qed.

(** X13: raw loops pile up: with both canvases and the video element on the
    page, every selection of the raw view leaves one more [renderRawView]
    waiting, whatever the view was; without the video element the selection
    stops at the read of [state.video.src], with no canvas call and no new
    callback.  In raw view an animation frame never changes the number
    waiting, over any number of frames. *)
Theorem raw_loops_accumulate (w : page) (frontCanvas backCanvas : canvas) :
  rawFrontCanvas w = Some frontCanvas -> rawBackCanvas w = Some backCanvas ->
  (forall v, video (st w) = Some v ->
             pendingRaw (handleViewChange rawview w) = S (pendingRaw w)) /\
  (video (st w) = None ->
   pendingRaw (handleViewChange rawview w) = pendingRaw w /\
   calls (handleViewChange rawview w) = calls w) /\
  (currentView (st w) = rawview ->
   forall k : nat, pendingRaw (Nat.iter k animationFrame w) = pendingRaw w).
Proof.
  intros Hf Hb. split; [|split].
  - intros v Hvid. unfold handleViewChange, updateRawView. simpl_state.
    rewrite Hf, Hb, Hvid.
    now destruct (renderRawView_raw
                    (mkPage (set_rawViewInitialized false
                               (set_currentView rawview (st w)))
                       (Some (resizeCanvas frontCanvas))
                       (Some (resizeCanvas backCanvas)) (pendingRaw w) (calls w))
                    (resizeCanvas frontCanvas) (resizeCanvas backCanvas)
                    eq_refl eq_refl eq_refl) as [P _].
  - intros Hvid. unfold handleViewChange, updateRawView. simpl_state.
    rewrite Hf, Hb, Hvid. now split.
  - intros Hv k.
    assert (G : pendingRaw (Nat.iter k animationFrame w) = pendingRaw w /\
                currentView (st (Nat.iter k animationFrame w)) = rawview /\
                rawFrontCanvas (Nat.iter k animationFrame w) = Some frontCanvas /\
                rawBackCanvas (Nat.iter k animationFrame w) = Some backCanvas).
    { induction k as [|k (I1 & I2 & I3 & I4)]; [now repeat split|].
      rewrite Nat.iter_succ.
      destruct (animationFrame_raw _ _ _ I2 I3 I4) as (A1 & A2 & A3 & A4).
      repeat split; try assumption. congruence. }
    apply G.
Qed.

Lemma raw_loops_accumulate_witness :
  rawFrontCanvas page0 = Some (mkCanvas (ofZ 832) (ofZ 650) (ofZ 300) (ofZ 150)) /\
  pendingRaw (handleViewChange rawview page0) = S (pendingRaw page0).
Proof.
  split; [reflexivity|].
  destruct (raw_loops_accumulate page0 _ _ eq_refl eq_refl) as [H _].
  exact (H _ eq_refl).
Defined.

(** X14: without one of the two canvases nothing is drawn and no loop starts:
    selecting the raw view makes no canvas call and leaves no callback
    waiting, and a callback that was waiting ends at the next frame. *)
Theorem raw_view_without_canvas (w : page) :
  rawFrontCanvas w = None \/ rawBackCanvas w = None ->
  calls (handleViewChange rawview w) = calls w /\
  pendingRaw (handleViewChange rawview w) = pendingRaw w /\
  renderRawView w = w /\
  calls (animationFrame w) = calls w /\
  pendingRaw (animationFrame w) = 0%nat.
Proof.
  intros Hc.
  assert (R : forall w', rawFrontCanvas w' = None \/ rawBackCanvas w' = None ->
                         renderRawView w' = w').
  { intros w' [H|H]; unfold renderRawView; rewrite H;
      destruct (negb _); try reflexivity; now destruct (rawFrontCanvas w'). }
  split; [|split; [|split; [now apply R|]]].
  - unfold handleViewChange, updateRawView. simpl_state.
    destruct Hc as [H|H]; rewrite H; [reflexivity|].
    now destruct (rawFrontCanvas w).
  - unfold handleViewChange, updateRawView. simpl_state.
    destruct Hc as [H|H]; rewrite H; [reflexivity|].
    now destruct (rawFrontCanvas w).
  - unfold animationFrame.
    assert (I : forall n w', rawFrontCanvas w' = None \/ rawBackCanvas w' = None ->
                             Nat.iter n renderRawView w' = w').
    { induction n as [|n IH]; intros w' H'; [reflexivity|].
      rewrite Nat.iter_succ, IH by exact H'. now apply R. }
    rewrite I by exact Hc. now split.
Qed.

Lemma raw_view_without_canvas_witness :
  rawFrontCanvas (mkPage state0 None None 3 []) = None /\
  pendingRaw (animationFrame (mkPage state0 None None 3 [])) = 0%nat.
Proof.
  split; [reflexivity|].
  apply (raw_view_without_canvas (mkPage state0 None None 3 [])).
  left. reflexivity.
Defined.

(* ================================================================= *)
(** ** Seeking *)


(** X15: [skipTime] keeps the position inside the recording: with a source and a
    finite duration [d >= 0], the new position is in [[0, d]]; a skip past
    the end lands on [d] and a skip before the start on 0.  Without a source
    nothing changes. *)
Theorem skipTime_within (m : media) (d c k : Qc) :
  duration m = Fin d -> (Q2Qc 0 <= d)%Qc -> currentTime m = Fin c ->
  (m_src m = "" -> skipTime (Fin k) m = m) /\
  (m_src m <> "" ->
   exists t,
     skipTime (Fin k) m = set_currentTime (Fin t) m /\
     (Q2Qc 0 <= t)%Qc /\ (t <= d)%Qc /\
     ((d <= c + k)%Qc -> t = d) /\ ((c + k <= Q2Qc 0)%Qc -> t = Q2Qc 0) /\
     ((Q2Qc 0 <= c + k)%Qc -> (c + k <= d)%Qc -> t = (c + k)%Qc)).
Proof.
  intros Hd Pd Hc. unfold skipTime. split.
  - intros ->. reflexivity.
  - intros Hs. apply String.eqb_neq in Hs. rewrite Hs, Hd, Hc.
    unfold add, ofZ.
    destruct (clamp_between (Q2Qc (inject_Z 0)) d (c + k)%Qc Pd)
      as (t & -> & H1 & H2 & H3 & H4 & H5).
    exists t. repeat split; assumption.
Qed.

Lemma skipTime_within_witness :
  duration (mkMedia "blob:recording" (ofZ 55) (ofZ 60)) = Fin (Q2Qc (inject_Z 60)) /\
  skipTime (Fin (Q2Qc (inject_Z 10))) (mkMedia "blob:recording" (ofZ 55) (ofZ 60))
  = mkMedia "blob:recording" (ofZ 60) (ofZ 60).
Proof.
  split; [reflexivity|].
  destruct (skipTime_within (mkMedia "blob:recording" (ofZ 55) (ofZ 60))
              (Q2Qc (inject_Z 60)) (Q2Qc (inject_Z 55)) (Q2Qc (inject_Z 10))
              eq_refl ltac:(discriminate) eq_refl) as [_ H].
  destruct (H ltac:(discriminate)) as (t & E & _ & _ & Hend & _).
  rewrite E, (Hend ltac:(discriminate)). reflexivity.
Defined.

(** X16: dragging the scrubber keeps the position inside the recording: on a
    timeline of positive width and for a finite duration [d >= 0] the
    position set by [onDrag] is in [[0, d]] wherever the pointer is, and while
    the pointer is over the timeline it is the position a click there sets. *)
Theorem timeline_drag_within (m : media) (r : rect) (a l w d : Qc) :
  rect_width r = Fin w -> (Q2Qc 0 < w)%Qc -> left r = Fin l ->
  duration m = Fin d -> (Q2Qc 0 <= d)%Qc ->
  onDrag false (Fin a) r m = m /\
  (exists t, onDrag true (Fin a) r m = set_currentTime (Fin t) m /\
             (Q2Qc 0 <= t)%Qc /\ (t <= d)%Qc) /\
  (m_src m <> "" -> (l <= a)%Qc -> (a <= l + w)%Qc ->
   fst (handleTimelineClick (Fin a) r m) = onDrag true (Fin a) r m).
Proof.
  intros Hw Pw Hl Hd Pd. split; [reflexivity|].
  unfold onDrag, handleTimelineClick. cbn [negb]. rewrite Hw, Hl, Hd.
  unfold sub, neg, add, ofZ.
  assert (Pw' : (Q2Qc (inject_Z 0) <= w)%Qc) by now apply Qclt_le_weak.
  destruct (clamp_between (Q2Qc (inject_Z 0)) w (a + - l)%Qc Pw')
    as (xr & -> & H1 & H2 & _ & _ & H5).
  rewrite (div_Fin_pos xr w Pw). split.
  - eexists. split; [reflexivity|].
    pose proof (this_div_mult xr w Pw) as E.
    unfold Qcle, Qclt in *.
    rewrite ?this_mult, ?this_Q2Qc in *. unfold inject_Z in *.
    split; nra.
  - intros Hs Hla Hal. apply String.eqb_neq in Hs. rewrite Hs. cbn [fst].
    rewrite (div_Fin_pos (a + - l)%Qc w Pw).
    rewrite (H5 ltac:(unfold Qcle in *;
                      rewrite ?this_plus, ?this_opp, ?this_Q2Qc in *;
                      unfold inject_Z in *; lra)
                ltac:(unfold Qcle in *;
                      rewrite ?this_plus, ?this_opp, ?this_Q2Qc in *; lra)).
    reflexivity.
Qed.

Lemma timeline_drag_within_witness :
  rect_width (mkRect (ofZ 20) (ofZ 400)) = Fin (Q2Qc (inject_Z 400)) /\
  exists t,
    onDrag true (Fin (Q2Qc (inject_Z 9999))) (mkRect (ofZ 20) (ofZ 400))
      (mkMedia "blob:recording" (ofZ 5) (ofZ 60))
    = set_currentTime (Fin t) (mkMedia "blob:recording" (ofZ 5) (ofZ 60)) /\
    (t <= Q2Qc (inject_Z 60))%Qc.
Proof.
  split; [reflexivity|].
  destruct (timeline_drag_within (mkMedia "blob:recording" (ofZ 5) (ofZ 60))
              (mkRect (ofZ 20) (ofZ 400))
              (Q2Qc (inject_Z 9999)) (Q2Qc (inject_Z 20))
              (Q2Qc (inject_Z 400)) (Q2Qc (inject_Z 60))
              eq_refl eq_refl eq_refl eq_refl ltac:(discriminate))
    as (_ & (t & E & _ & H) & _).
  exists t. split; assumption.
Defined.

(** X17: the progress bar is guarded against division by zero: nothing is written
    without a source or when the duration is 0 or [NaN]; and whatever is
    written for a finite position is a number, which lies in [[0, 100]] when
    the position lies in [[0, duration]]. *)
Theorem timeline_progress_guarded (m : media) :
  (m_src m = "" \/ duration m = ofZ 0 \/ duration m = NaN ->
   updateTimelineProgress m = None) /\
  (forall p, updateTimelineProgress m = Some p ->
             isFinite (currentTime m) = true -> isFinite p = true) /\
  (forall p c d, updateTimelineProgress m = Some p ->
                 currentTime m = Fin c -> duration m = Fin d ->
                 (Q2Qc 0 <= c)%Qc -> (c <= d)%Qc -> within 0 100 p).
Proof.
  unfold updateTimelineProgress. split; [|split].
  - intros [H|[H|H]]; rewrite H; [reflexivity | |];
      destruct (String.eqb (m_src m) ""); reflexivity.
  - intros p H Hc. destruct (String.eqb (m_src m) ""); [discriminate|].
    destruct (isFinite_Fin _ Hc) as [c Ec]. rewrite Ec in H.
    destruct (duration m) as [d| | |]; try discriminate;
      cbn [orb negb truthy] in H.
    + unfold div in H. destruct (sgn d); try discriminate;
        injection H as <-; reflexivity.
    + injection H as <-. reflexivity.
    + injection H as <-. reflexivity.
  - intros p c d H Ec Ed P0 Pcd. destruct (String.eqb (m_src m) ""); [discriminate|].
    rewrite Ec, Ed in H. cbn [orb negb truthy] in H.
    destruct (sgn d) eqn:Es; try discriminate.
    + exfalso. unfold sgn in Es. apply Qclt_alt in Es.
      apply (Qclt_not_le _ _ Es). exact (Qcle_trans _ _ _ P0 Pcd).
    + apply Qcgt_alt in Es. injection H as <-.
      rewrite (sgn_pos d Es). unfold mul, ofZ, within.
      pose proof (this_div_mult c d Es) as E.
      unfold Qcle, Qclt in *.
      rewrite ?this_mult, ?this_Q2Qc in *. unfold inject_Z in *.
      split; nra.
Qed.

(* ================================================================= *)
(** ** Calibration and the camera *)

Lemma add_zero_l (a : num) : add (ofZ 0) a = a.
Proof.
  destruct a as [q| | |]; try reflexivity.
  unfold ofZ, add. f_equal. apply Qcplus_0_l.
Qed.

(** X18: calibration replaces the offset instead of correcting it: whatever the
    offset was, the yaw handed to the camera afterwards is [-pan], so the
    picture keeps its direction exactly when the offset was [-2 * pan]. *)
Theorem calibration_moves_the_view (degToRad : num -> num) (s : state) :
  yawDegrees (calibrateFrontLens s) = neg (pan s) /\
  rotation_y (animate degToRad (calibrateFrontLens s)) = degToRad (neg (pan s)) /\
  (forall p f : Qc,
      pan s = Fin p -> frontLensOffset s = Fin f ->
      (yawDegrees (calibrateFrontLens s) = yawDegrees s <-> f = (- (p + p))%Qc)).
Proof.
  assert (Y : yawDegrees (calibrateFrontLens s) = neg (pan s)).
  { unfold yawDegrees, calibrateFrontLens. simpl_state. apply add_zero_l. }
  split; [exact Y | split].
  - unfold animate. now rewrite Y.
  - intros p f Hp Hf. rewrite Y. unfold yawDegrees. rewrite Hp, Hf.
    unfold neg, add. split.
    + intros H.
      apply (f_equal (fun n => match n with Fin q => q | _ => p end)) in H.
      cbv beta iota in H.
      apply Qc_is_canon. rewrite ?this_opp, ?this_plus.
      assert (H' : (- this p == this p + this f)%Q).
      { rewrite <- this_opp, <- this_plus. now rewrite H. }
      lra.
    + intros ->. f_equal. apply Qc_is_canon.
      rewrite ?this_opp, ?this_plus, ?this_opp, ?this_plus. lra.
Qed.

Example calibration_at_start_turns_the_view :
  yawDegrees state0 = ofZ 91 /\ yawDegrees (calibrateFrontLens state0) = ofZ 0.
Proof. split; js_eval. Qed.

Lemma calibration_changes_offset_only_witness :
  forallb (fun e => negb (isCalibrate e))
    [KeyDown false "r"; ViewChange back; PTZChange "pan" (ofZ 40);
     KeyDown true "c"; ViewChange rawview; AnimationFrame] = true /\
  frontLensOffset
    (st (run (fun a => a)
           [KeyDown false "r"; ViewChange back; PTZChange "pan" (ofZ 40);
            KeyDown true "c"; ViewChange rawview; AnimationFrame] page0))
  = frontLensOffset (st page0).
Proof.
  split; [reflexivity|].
  apply (calibration_changes_offset_only (fun a => a)
           [KeyDown false "r"; ViewChange back; PTZChange "pan" (ofZ 40);
            KeyDown true "c"; ViewChange rawview; AnimationFrame] page0).
  reflexivity.
Defined.

(** X11: a drag step repairs tilt: from any finite tilt, also one that the tilt
    keys took out of range, a mouse move or a one-finger move during a drag
    with finite coordinates stores a tilt in [[-90, 90]]. *)
Theorem drag_restores_tilt (Math_sqrt : num -> num) (cx cy : num) (s : state) :
  isDragging s = true ->
  isFinite (tilt s) = true ->
  isFinite (y (previousMousePosition s)) = true ->
  isFinite cy = true ->
  within (-90) 90 (tilt (onMouseMove cx cy s)) /\
  within (-90) 90 (tilt (onTouchMove Math_sqrt [mkPoint cx cy] s)).
Proof.
  intros Hd Ht Hy Hcy.
  assert (W : within (-90) 90 (tilt (dragTo cx cy s))).
  { apply drag_tilt_within.
    destruct (isFinite_Fin _ Ht) as [t ->].
    destruct (isFinite_Fin _ Hcy) as [c ->].
    destruct (isFinite_Fin _ Hy) as [py ->]. reflexivity. }
  unfold onMouseMove. cbn [onTouchMove x y]. rewrite Hd. now split.
Qed.

Lemma drag_restores_tilt_witness :
  tilt (set_isDragging true (set_tilt (ofZ 200) state0)) = ofZ 200 /\
  within (-90) 90
    (tilt (onMouseMove (ofZ 3) (ofZ 4)
             (set_isDragging true (set_tilt (ofZ 200) state0)))).
Proof.
  split; [reflexivity|].
  apply (drag_restores_tilt (fun a => a) (ofZ 3) (ofZ 4)
           (set_isDragging true (set_tilt (ofZ 200) state0)));
    reflexivity.
Defined.

(** A parent smaller than the margins: the negative sizes fall back to the
    default 300 x 150. *)
Example resizeCanvas_small_parent :
  width (resizeCanvas (mkCanvas (ofZ 20) (ofZ 10) (ofZ 300) (ofZ 150))) = ofZ 300 /\
  height (resizeCanvas (mkCanvas (ofZ 20) (ofZ 10) (ofZ 300) (ofZ 150))) = ofZ 150 /\
  width (resizeCanvas (mkCanvas (ofZ 832) (ofZ 650) (ofZ 300) (ofZ 150))) = ofZ 800.
Proof. repeat split; js_eval. Qed.
